(** * The worker mirror of cloudflare-manager (src/services/WorkersService.ts)

    A shallow embedding of [WorkersService]: the two SQL tables it reads and
    writes, the provider client it calls, and its operations, followed by the
    properties of the reconciliation logic.

    Conventions of the embedding.
    - A table is the list of its rows in insertion order.
    - A JavaScript [throw new Error(msg)] is the result [Err msg]; the
      catch blocks of the source only ever read [error.message].
    - Everything the service cannot decide by itself is an input: what the
      provider answers, the identifiers drawn from [crypto.randomUUID] and
      the readings of SQLite's [CURRENT_TIMESTAMP] (record [Env]).
    - Every call made through the provider client is appended to a log, so
      that "a remote call is (not) issued" is a statement about the log. *)

From Stdlib Require Import Ascii.
From stdpp Require Import base list strings pretty gmap sorting.

Set Default Proof Using "Type".

(** ** Results of fallible calls *)

Inductive result (A : Type) : Type :=
| Ok (a : A)
| Err (message : string).
Arguments Ok {A} a.
Arguments Err {A} message.

Definition is_ok {A} (r : result A) : bool :=
  match r with Ok _ => true | Err _ => false end.

(** ** Data model *)

(** Modelled from the spec: the DDL of table [accounts] (db/schema) is not
    among the sources. The columns are those the statements and
    [mapAccountRow] name; the optional ones are those the storage schema of
    the specification (section 6) marks NULL. *)
Module AccountRow.
Record t := mk {
  id : string;
  name : string;
  auth_type : string;
  account_id : string;
  api_token : option string;
  auth_email : option string;
  auth_key : option string;
  subdomain : option string;
  status : string;
  last_check : option string;
  last_error : option string;
  created_at : string;
  updated_at : string }.
End AccountRow.

(** The [Account] object handed to the provider client. *)
Module Account.
Record t := mk {
  id : string;
  name : string;
  authType : string;
  accountId : string;
  apiToken : option string;
  authEmail : option string;
  authKey : option string;
  subdomain : option string;
  status : string;
  lastCheck : option string;
  lastError : option string;
  createdAt : string;
  updatedAt : string }.
End Account.

(** Modelled from the spec: the DDL of table [workers] (db/schema) is not
    among the sources. The columns are those of the [INSERT] statement of
    [syncAccountWorkers]; the optional ones are those the storage schema of
    the specification (section 6) marks NULL. *)
Module WorkerRow.
Record t := mk {
  id : string;
  account_id : string;
  name : string;
  subdomain : option string;
  url : option string;
  script_hash : option string;
  created_on : option string;
  modified_on : option string;
  last_synced : string }.

Global Instance eq_dec : EqDecision t.
Proof. solve_decision. Defined.
End WorkerRow.

(** [interface WorkerRecord]. *)
Module WorkerRecord.
Record t := mk {
  id : string;
  accountId : string;
  name : string;
  subdomain : option string;
  url : option string;
  scriptHash : option string;
  createdOn : option string;
  modifiedOn : option string;
  lastSynced : string }.

Global Instance eq_dec : EqDecision t.
Proof. solve_decision. Defined.
End WorkerRecord.

(** An element of the provider's [listWorkers()] answer; the service reads
    [id], [etag], [created_on] and [modified_on]. *)
Module CfWorker.
Record t := mk {
  id : string;
  etag : option string;
  created_on : option string;
  modified_on : option string }.
End CfWorker.

(** ** The provider client *)

Module CloudflareAPI.
(** Modelled from the spec: the client class (services/CloudflareAPI) is not
    among the sources. Its methods are those the service calls, with the
    signatures of the provider client contract of the specification
    (section 6); every call may fail with a message. A value of this record
    is how the provider answers each method of one client during one
    service call. *)
Record t := mk {
  listWorkers : result (list CfWorker.t);
  getSubdomain : result string;
  downloadWorkerScript : string → result string;
  updateWorkerScript : string → string → string → result unit;
  deleteWorker : string → result unit }.
End CloudflareAPI.

(** The requests that reach the provider; [via] is the id of the account the
    client was built for. *)
Inductive ApiRequest : Type :=
| ReqListWorkers
| ReqGetSubdomain
| ReqDownloadWorkerScript (workerName : string)
| ReqUpdateWorkerScript (workerId workerName script : string)
| ReqDeleteWorker (workerName : string).

Global Instance ApiRequest_eq_dec : EqDecision ApiRequest.
Proof. solve_decision. Defined.

Record ApiCall := mkCall { via : string; request : ApiRequest }.

Global Instance ApiCall_eq_dec : EqDecision ApiCall.
Proof. solve_decision. Defined.

(** ** Store and world *)

Record Db := mkDb {
  accounts : list AccountRow.t;
  workers : list WorkerRow.t }.

Record World := mkWorld {
  db : Db;
  calls : list ApiCall }.

(** The inputs of one service call. [randomUUID i] is the i-th identifier
    drawn during the call, [CURRENT_TIMESTAMP i] the clock reading of the
    i-th statement of the call that reads the clock, and
    [subdomain_rejects_first] says which rejection [Promise.all] reports
    when both of its promises reject. *)
Record Env := mkEnv {
  cloudflare : Account.t → CloudflareAPI.t;
  randomUUID : nat → string;
  CURRENT_TIMESTAMP : nat → string;
  subdomain_rejects_first : bool }.

(** ** Computations: state that survives an exception *)

Definition M (A : Type) : Type := World → result A * World.

Definition ret {A} (a : A) : M A := λ w, (Ok a, w).

Definition throw {A} (message : string) : M A := λ w, (Err message, w).

Definition bind {A B} (m : M A) (f : A → M B) : M B :=
  λ w, match m w with
       | (Ok a, w') => f a w'
       | (Err e, w') => (Err e, w')
       end.

(** [try { m } catch (error) { h error.message }] *)
Definition try_catch {A} (m : M A) (h : string → M A) : M A :=
  λ w, match m w with
       | (Ok a, w') => (Ok a, w')
       | (Err e, w') => h e w'
       end.

Declare Scope m_scope.
Delimit Scope m_scope with M.
Notation "x <- m ;; k" := (bind m (λ x, k))
  (at level 100, m at next level, right associativity) : m_scope.
Notation "m ;; k" := (bind m (λ _, k))
  (at level 100, right associativity) : m_scope.
Open Scope m_scope.

(** A statement that reads the store. *)
Definition query {A} (q : Db → A) : M A := λ w, (Ok (q (db w)), w).

(** A statement that writes the store and cannot fail. *)
Definition exec (stmt : Db → Db) : M unit :=
  λ w, (Ok tt, mkWorld (stmt (db w)) (calls w)).

(** A statement that writes the store or raises a constraint error. *)
Definition exec_checked (stmt : Db → result Db) : M unit :=
  λ w, match stmt (db w) with
       | Ok d => (Ok tt, mkWorld d (calls w))
       | Err e => (Err e, w)
       end.

(** [db.transaction(body)(...)]: the writes of [body] are committed when it
    returns and undone when it throws; the exception is re-thrown. Provider
    calls cannot be undone. *)
Definition transaction {A} (body : M A) : M A :=
  λ w, match body w with
       | (Ok a, w') => (Ok a, w')
       | (Err e, w') => (Err e, mkWorld (db w) (calls w'))
       end.

(** [await api.method(...)]: the request is logged, the answer returned or
    thrown. *)
Definition await {A} (c : ApiCall) (answer : result A) : M A :=
  λ w, (answer, mkWorld (db w) (calls w ++ [c])).

(** [await Promise.all([p1, p2])]: both requests are issued; the result is
    both answers, or the rejection that comes first. *)
Definition await_all2 {A B} (flip_rejections : bool)
    (c1 : ApiCall) (a1 : result A) (c2 : ApiCall) (a2 : result B) : M (A * B) :=
  λ w,
    let w' := mkWorld (db w) (calls w ++ [c1; c2]) in
    match a1, a2 with
    | Ok x, Ok y => (Ok (x, y), w')
    | Err e, Ok _ => (Err e, w')
    | Ok _, Err e => (Err e, w')
    | Err e1, Err e2 => (Err (if flip_rejections then e2 else e1), w')
    end.

(** ** SQL statements

    Each statement of the service as a function on the store. Limits of the
    engine (statement length, number of host parameters) and storage faults
    are not modelled: the only statement that can fail is the [INSERT], on
    its primary key. *)

Module Sql.
(** [SELECT * FROM accounts WHERE id = ?], [.get()]: the first match. *)
Definition select_account (id : string) (d : Db) : option AccountRow.t :=
  find (λ r, bool_decide (AccountRow.id r = id)) (accounts d).

(** [SELECT * FROM workers WHERE name = ? AND account_id = ?], [.get()].
    SQL leaves open which of several matching rows comes first; the
    embedding takes the first in table order. *)
Definition select_worker (name account_id : string) (d : Db)
    : option WorkerRow.t :=
  find (λ r, bool_decide (WorkerRow.name r = name)
               && bool_decide (WorkerRow.account_id r = account_id))
       (workers d).

(** [DELETE FROM workers WHERE account_id = ?] *)
Definition delete_workers_of_account (account_id : string) (d : Db) : Db :=
  mkDb (accounts d)
       (filter (λ r, WorkerRow.account_id r ≠ account_id) (workers d)).

(** [DELETE FROM workers WHERE id = ?] *)
Definition delete_worker (id : string) (d : Db) : Db :=
  mkDb (accounts d) (filter (λ r, WorkerRow.id r ≠ id) (workers d)).

Definition pk_conflict : string := "UNIQUE constraint failed: workers.id".

(** Modelled from the spec: the constraints of table [workers] are in the
    DDL, which is not among the sources; the storage schema of the
    specification (section 6) declares [id] as primary key. So
    [INSERT INTO workers (...) VALUES (...)] refuses a row whose id is
    already in the table, and appends any other row. *)
Definition insert_worker (r : WorkerRow.t) (d : Db) : result Db :=
  if decide (WorkerRow.id r ∈ WorkerRow.id <$> workers d)
  then Err pk_conflict
  else Ok (mkDb (accounts d) (workers d ++ [r])).

Definition set_sync_fields (subdomain now : string) (r : AccountRow.t)
    : AccountRow.t :=
  AccountRow.mk (AccountRow.id r) (AccountRow.name r)
    (AccountRow.auth_type r) (AccountRow.account_id r)
    (AccountRow.api_token r) (AccountRow.auth_email r)
    (AccountRow.auth_key r) (Some subdomain) (AccountRow.status r)
    (Some now) (AccountRow.last_error r) (AccountRow.created_at r)
    (AccountRow.updated_at r).

(** [UPDATE accounts SET subdomain = ?, last_check = CURRENT_TIMESTAMP
     WHERE id = ?] *)
Definition update_account_sync (subdomain now id : string) (d : Db) : Db :=
  mkDb ((λ r, if decide (AccountRow.id r = id)
              then set_sync_fields subdomain now r else r) <$> accounts d)
       (workers d).

Definition set_stamps (now : string) (r : WorkerRow.t) : WorkerRow.t :=
  WorkerRow.mk (WorkerRow.id r) (WorkerRow.account_id r) (WorkerRow.name r)
    (WorkerRow.subdomain r) (WorkerRow.url r) (WorkerRow.script_hash r)
    (WorkerRow.created_on r) (Some now) now.

(** [UPDATE workers SET modified_on = CURRENT_TIMESTAMP,
     last_synced = CURRENT_TIMESTAMP WHERE id = ?] *)
Definition touch_worker (now id : string) (d : Db) : Db :=
  mkDb (accounts d)
       ((λ r, if decide (WorkerRow.id r = id) then set_stamps now r else r)
          <$> workers d).

(** [ORDER BY account_id, name], under SQLite's default (bytewise)
    collation. *)
Definition order_by_account_name (r1 r2 : WorkerRow.t) : Prop :=
  String.le (WorkerRow.account_id r1) (WorkerRow.account_id r2) ∧
  (WorkerRow.account_id r1 = WorkerRow.account_id r2 →
   String.le (WorkerRow.name r1) (WorkerRow.name r2)).

Global Instance order_by_account_name_dec : RelDecision order_by_account_name.
Proof. intros r1 r2. unfold order_by_account_name. apply _. Defined.

(** A row put into rows that are already in order: before the first row it
    does not come after. *)
Fixpoint insert_in_order (r : WorkerRow.t) (ordered : list WorkerRow.t)
    : list WorkerRow.t :=
  match ordered with
  | [] => [r]
  | x :: rest =>
      if decide (order_by_account_name r x) then r :: ordered
      else x :: insert_in_order r rest
  end.

(** The rows of a result set after [ORDER BY account_id, name]. SQL leaves
    open the order of rows that tie on both columns; SQLite returns them in
    table order, and so does this sort. *)
Definition order_rows (rows : list WorkerRow.t) : list WorkerRow.t :=
  foldr insert_in_order [] rows.
End Sql.

(** ** The service *)

Module WorkersService.

Definition mapWorkerRow (row : WorkerRow.t) : WorkerRecord.t :=
  WorkerRecord.mk (WorkerRow.id row) (WorkerRow.account_id row)
    (WorkerRow.name row) (WorkerRow.subdomain row) (WorkerRow.url row)
    (WorkerRow.script_hash row) (WorkerRow.created_on row)
    (WorkerRow.modified_on row) (WorkerRow.last_synced row).

Definition mapAccountRow (row : AccountRow.t) : Account.t :=
  Account.mk (AccountRow.id row) (AccountRow.name row)
    (AccountRow.auth_type row) (AccountRow.account_id row)
    (AccountRow.api_token row) (AccountRow.auth_email row)
    (AccountRow.auth_key row) (AccountRow.subdomain row)
    (AccountRow.status row) (AccountRow.last_check row)
    (AccountRow.last_error row) (AccountRow.created_at row)
    (AccountRow.updated_at row).

(** [v || null] on an optional string: the empty string is falsy. *)
Definition or_null (v : option string) : option string :=
  match v with
  | Some "" => None
  | _ => v
  end.

Definition account_not_found (accountId : string) : string :=
  "Account " +:+ accountId +:+ " not found".

Definition sync_failed (accountId cause : string) : string :=
  "Failed to sync workers for account " +:+ accountId +:+ ": " +:+ cause.

Definition worker_url (workerName subdomain : string) : string :=
  "https://" +:+ workerName +:+ "." +:+ subdomain +:+ ".workers.dev".

(** The row bound to [insertStmt] for the i-th fetched worker. *)
Definition new_row (env : Env) (accountId subdomain : string) (i : nat)
    (worker : CfWorker.t) : WorkerRow.t :=
  let workerId := randomUUID env i in
  let url := worker_url (CfWorker.id worker) subdomain in
  WorkerRow.mk workerId accountId (CfWorker.id worker) (Some subdomain)
    (Some url) (or_null (CfWorker.etag worker))
    (or_null (CfWorker.created_on worker))
    (or_null (CfWorker.modified_on worker)) (CURRENT_TIMESTAMP env i).

(** The body of the [insert] transaction: the loop over [workersList],
    [i] counting the iterations already done. *)
Fixpoint insert_loop (env : Env) (accountId subdomain : string) (i : nat)
    (workersList : list CfWorker.t) : M unit :=
  match workersList with
  | [] => ret tt
  | worker :: rest =>
      exec_checked (Sql.insert_worker (new_row env accountId subdomain i worker));;
      insert_loop env accountId subdomain (S i) rest
  end.

Definition syncAccountWorkers (env : Env) (accountId : string) : M nat :=
  accountRow <- query (Sql.select_account accountId);;
  match accountRow with
  | None => throw (account_not_found accountId)
  | Some accountRow =>
      let account := mapAccountRow accountRow in
      let api := cloudflare env account in
      try_catch
        (fetched <- await_all2 (subdomain_rejects_first env)
            (mkCall (Account.id account) ReqListWorkers)
            (CloudflareAPI.listWorkers api)
            (mkCall (Account.id account) ReqGetSubdomain)
            (CloudflareAPI.getSubdomain api);;
         let '(workers, subdomain) := fetched in
         exec (Sql.delete_workers_of_account accountId);;
         if decide (length workers = 0) then ret 0
         else
           transaction (insert_loop env accountId subdomain 0 workers);;
           exec (Sql.update_account_sync subdomain
                   (CURRENT_TIMESTAMP env (length workers)) accountId);;
           ret (length workers))
        (λ message, throw (sync_failed accountId message))
  end.

(** The values stored in the result object of [syncMultipleAccounts]:
    [number | string]. *)
Inductive CountOrMessage : Type :=
| Count (n : nat)
| Message (s : string).

Global Instance CountOrMessage_eq_dec : EqDecision CountOrMessage.
Proof. solve_decision. Defined.

(** [results[key] = value] on an object made by the literal [{}], for a
    value that is a number or a string. The object inherits the accessor
    [__proto__] of [Object.prototype]; its setter ignores a value that is
    neither an object nor [null], so under that one key the assignment
    stores nothing. Under every other key it creates or overwrites an own
    property. *)
Definition js_assign (key : string) (value : CountOrMessage)
    (results : gmap string CountOrMessage) : gmap string CountOrMessage :=
  if decide (key = "__proto__") then results else <[key := value]> results.

Definition error_value (message : string) : CountOrMessage :=
  Message ("Error: " +:+ message).

(** The [for ... of] loop of [syncMultipleAccounts]; [envs i] holds the
    inputs of the i-th iteration. *)
Fixpoint sync_loop (envs : nat → Env) (i : nat) (accountIds : list string)
    (results : gmap string CountOrMessage) : M (gmap string CountOrMessage) :=
  match accountIds with
  | [] => ret results
  | accountId :: rest =>
      results' <- try_catch
        (count <- syncAccountWorkers (envs i) accountId;;
         ret (js_assign accountId (Count count) results))
        (λ message, ret (js_assign accountId (error_value message) results));;
      sync_loop envs (S i) rest results'
  end.

Definition syncMultipleAccounts (envs : nat → Env) (accountIds : list string)
    : M (gmap string CountOrMessage) :=
  sync_loop envs 0 accountIds ∅.

(** [accountIds?: string[]] is [None] when the argument is omitted. The
    statement has no [WHERE] clause unless the list is given and
    non-empty. *)
Definition getWorkers (accountIds : option (list string)) (d : Db)
    : list WorkerRecord.t :=
  let selected :=
    match accountIds with
    | Some ((_ :: _) as ids) =>
        filter (λ r, WorkerRow.account_id r ∈ ids) (workers d)
    | _ => workers d
    end in
  mapWorkerRow <$> Sql.order_rows selected.

Definition worker_not_in_account (workerName accountId : string) : string :=
  "Worker " +:+ workerName +:+ " not found in account " +:+ accountId.

Definition worker_not_in_cloudflare (workerName : string) : string :=
  "Worker " +:+ workerName +:+ " not found in Cloudflare".

Definition worker_not_in_database (workerName : string) : string :=
  "Worker " +:+ workerName +:+ " not found in database".

(** [workers.find(w => w.id === workerName)] *)
Definition find_cf (workerName : string) (workers : list CfWorker.t)
    : option CfWorker.t :=
  find (λ w, bool_decide (CfWorker.id w = workerName)) workers.

Definition getWorkerScript (env : Env) (workerName accountId : string)
    : M string :=
  accountRow <- query (Sql.select_account accountId);;
  match accountRow with
  | None => throw (account_not_found accountId)
  | Some accountRow =>
      let account := mapAccountRow accountRow in
      let api := cloudflare env account in
      await (mkCall (Account.id account) (ReqDownloadWorkerScript workerName))
            (CloudflareAPI.downloadWorkerScript api workerName)
  end.

Definition updateWorkerScript (env : Env)
    (workerName accountId script : string) : M unit :=
  accountRow <- query (Sql.select_account accountId);;
  match accountRow with
  | None => throw (account_not_found accountId)
  | Some accountRow =>
      workerRow <- query (Sql.select_worker workerName accountId);;
      match workerRow with
      | None => throw (worker_not_in_account workerName accountId)
      | Some workerRow =>
          let account := mapAccountRow accountRow in
          let api := cloudflare env account in
          workers <- await (mkCall (Account.id account) ReqListWorkers)
                           (CloudflareAPI.listWorkers api);;
          match find_cf workerName workers with
          | None => throw (worker_not_in_cloudflare workerName)
          | Some cfWorker =>
              let workerId := workerName in
              await (mkCall (Account.id account)
                       (ReqUpdateWorkerScript workerId workerName script))
                    (CloudflareAPI.updateWorkerScript api workerId workerName script);;
              exec (Sql.touch_worker (CURRENT_TIMESTAMP env 0)
                      (WorkerRow.id workerRow))
          end
      end
  end.

Definition deleteWorker (env : Env) (workerName accountId : string)
    : M unit :=
  accountRow <- query (Sql.select_account accountId);;
  match accountRow with
  | None => throw (account_not_found accountId)
  | Some accountRow =>
      workerRow <- query (Sql.select_worker workerName accountId);;
      match workerRow with
      | None => throw (worker_not_in_database workerName)
      | Some workerRow =>
          let account := mapAccountRow accountRow in
          let api := cloudflare env account in
          workers <- await (mkCall (Account.id account) ReqListWorkers)
                           (CloudflareAPI.listWorkers api);;
          (match find_cf workerName workers with
           | Some cfWorker =>
               await (mkCall (Account.id account) (ReqDeleteWorker workerName))
                     (CloudflareAPI.deleteWorker api workerName)
           | None => ret tt
           end);;
          exec (Sql.delete_worker (WorkerRow.id workerRow))
      end
  end.

(** The property names an object made by [{}] inherits from
    [Object.prototype]. Reading one of them on such an object yields the
    inherited function (or, for [__proto__], the prototype itself), which is
    truthy and has no [push]. *)
Definition object_prototype_keys : list string :=
  ["constructor"; "hasOwnProperty"; "isPrototypeOf"; "propertyIsEnumerable";
   "toLocaleString"; "toString"; "valueOf"; "__proto__"; "__defineGetter__";
   "__defineSetter__"; "__lookupGetter__"; "__lookupSetter__"].

(** The message of the [TypeError] raised by [grouped[k].push(worker)] when
    [grouped[k]] is an inherited member, as V8 words it. *)
Definition push_is_not_a_function : string :=
  "grouped[worker.accountId].push is not a function".

(** The [for ... of] loop of [getWorkersByAccount]. An own property of
    [grouped] is always an array made by the loop, hence truthy; a key that
    is not an own property reads as [undefined] unless it is inherited. *)
Fixpoint group_loop (workers : list WorkerRecord.t)
    (grouped : gmap string (list WorkerRecord.t))
    : result (gmap string (list WorkerRecord.t)) :=
  match workers with
  | [] => Ok grouped
  | worker :: rest =>
      let key := WorkerRecord.accountId worker in
      match grouped !! key with
      | Some group => group_loop rest (<[key := group ++ [worker]]> grouped)
      | None =>
          if decide (key ∈ object_prototype_keys)
          then Err push_is_not_a_function
          else group_loop rest (<[key := [worker]]> grouped)
      end
  end.

Definition getWorkersByAccount (d : Db)
    : result (gmap string (list WorkerRecord.t)) :=
  let workers := getWorkers None d in
  group_loop workers ∅.

(** [null] is [None]. *)
Definition getAccountInfo (accountId : string) (d : Db) : option Account.t :=
  match Sql.select_account accountId d with
  | Some row => Some (mapAccountRow row)
  | None => None
  end.

End WorkersService.

Import WorkersService.

(** ** The HTTP handlers of the workers router

    The handlers of [createWorkersRouter] that read [req.query], and the
    handler of [POST /sync], as functions from the fields they read to the
    response they send. The handlers of [PUT /:workerName/script] and
    [DELETE /:workerName] hand body fields of any JSON type to the service,
    whose statements are embedded for strings only; they are left out. *)

Module WorkersRouter.

(** A field of [req.query], or of a [req.body] that was parsed to an object:
    absent, a string, an array of strings, or a value of another type, of
    which only the truthiness matters. Arrays are arrays of strings, the
    element type the service declares. *)
Inductive Field : Type :=
| Absent
| Text (s : string)
| Texts (l : list string)
| Other (truthy : bool).

(** JavaScript truthiness: [undefined] and the empty string are falsy, every
    array is truthy. *)
Definition truthy (f : Field) : bool :=
  match f with
  | Absent => false
  | Text s => negb (bool_decide (s = ""))
  | Texts _ => true
  | Other b => b
  end.

Definition is_string (f : Field) : bool :=
  match f with Text _ => true | _ => false end.

Definition is_array (f : Field) : bool :=
  match f with Texts _ => true | _ => false end.

(** The value of a field that passed the [typeof ... === 'string'] test. *)
Definition text (f : Field) : string :=
  match f with Text s => s | _ => "" end.

(** The elements of a field that passed the [Array.isArray] test. *)
Definition elements (f : Field) : list string :=
  match f with Texts l => l | _ => [] end.

(** [s.split(',')]: the pieces between the commas; a string without comma
    is its own single piece. *)
Fixpoint split_comma (s : string) : list string :=
  match s with
  | "" => [""]
  | String c rest =>
      if Ascii.eqb c ","%char then "" :: split_comma rest
      else match split_comma rest with
           | piece :: pieces => String c piece :: pieces
           | [] => [String c ""]
           end
  end.

(** The JSON bodies the handlers send. *)
Inductive Body : Type :=
| ErrorBody (error : string)
| WorkersBody (workers : list WorkerRecord.t)
| GroupedBody (grouped : gmap string (list WorkerRecord.t))
| SyncedOneBody (accountId : string) (count : nat)
| SyncedManyBody (results : gmap string CountOrMessage)
| ScriptBody (script : string).

Record Response := mkResponse { status : nat; body : Body }.

(** [res.json(body)] *)
Definition json (b : Body) : M Response := ret (mkResponse 200 b).

(** [res.status(code).json({ error })] *)
Definition json_error (code : nat) (error : string) : M Response :=
  ret (mkResponse code (ErrorBody error)).

(** A synchronous service call that may throw. *)
Definition call {A} (f : Db → result A) : M A := λ w, (f (db w), w).

(** The local [accountIdArray] of [GET /]. *)
Definition accountIdArray (accountIds : Field) : option (list string) :=
  if truthy accountIds then
    match accountIds with
    | Text s => Some (split_comma s)
    | Texts l => Some l
    | _ => None
    end
  else None.

(** [GET /] *)
Definition get_workers (accountIds : Field) : M Response :=
  try_catch
    (workers <- query (getWorkers (accountIdArray accountIds));;
     json (WorkersBody workers))
    (λ message, json_error 500 message).

(** [GET /grouped] *)
Definition get_grouped : M Response :=
  try_catch
    (grouped <- call getWorkersByAccount;;
     json (GroupedBody grouped))
    (λ message, json_error 500 message).

Definition accountIds_required : string :=
  "accountIds is required and must be a non-empty array".

(** [POST /sync]; [envs] holds the inputs of the service call. *)
Definition post_sync (envs : nat → Env) (accountIds : Field) : M Response :=
  try_catch
    (let ids := elements accountIds in
     if negb (truthy accountIds) || negb (is_array accountIds)
        || bool_decide (length ids = 0)
     then json_error 400 accountIds_required
     else
       match ids with
       | [accountId] =>
           count <- syncAccountWorkers (envs 0) accountId;;
           json (SyncedOneBody accountId count)
       | _ =>
           results <- syncMultipleAccounts envs ids;;
           json (SyncedManyBody results)
       end)
    (λ message, json_error 500 message).

Definition accountId_required : string :=
  "accountId query parameter is required".

(** [GET /:workerName/script] *)
Definition get_script (env : Env) (workerName : string) (accountId : Field)
    : M Response :=
  try_catch
    (if negb (truthy accountId) || negb (is_string accountId)
     then json_error 400 accountId_required
     else
       script <- getWorkerScript env workerName (text accountId);;
       json (ScriptBody script))
    (λ message, json_error 500 message).

End WorkersRouter.

(** ** Views of the store used in the statements *)

(** The mirror of one account: its rows of table [workers]. *)
Definition rows_of (accountId : string) (d : Db) : list WorkerRow.t :=
  filter (λ r, WorkerRow.account_id r = accountId) (workers d).

(** The rows of all the other accounts. *)
Definition rows_not_of (accountId : string) (d : Db) : list WorkerRow.t :=
  filter (λ r, WorkerRow.account_id r ≠ accountId) (workers d).

(** The rows one successful [insert] transaction adds for the fetched list,
    [i] being the number of identifiers drawn so far. *)
Fixpoint new_rows (env : Env) (accountId subdomain : string) (i : nat)
    (fetched : list CfWorker.t) : list WorkerRow.t :=
  match fetched with
  | [] => []
  | worker :: rest =>
      new_row env accountId subdomain i worker
        :: new_rows env accountId subdomain (S i) rest
  end.

(** The primary key of table [workers]. *)
Definition workers_pk (d : Db) : Prop := NoDup (WorkerRow.id <$> workers d).

Global Instance workers_pk_dec d : Decision (workers_pk d).
Proof. unfold workers_pk. apply _. Defined.

Definition name_url (r : WorkerRow.t) : string * option string :=
  (WorkerRow.name r, WorkerRow.url r).

(** The two requests of the [Promise.all] of [syncAccountWorkers]. *)
Definition sync_requests (acc : AccountRow.t) : list ApiCall :=
  [mkCall (AccountRow.id acc) ReqListWorkers;
   mkCall (AccountRow.id acc) ReqGetSubdomain].

(** ** Sample data for the closed examples *)

Module Sample.
Definition account (id : string) (subdomain : option string) : AccountRow.t :=
  AccountRow.mk id "main" "token" "cf-0001" (Some "secret") None None
    subdomain "active" None None "2024-01-01T00:00:00.000Z"
    "2024-01-01T00:00:00.000Z".

Definition row (id accountId name : string) : WorkerRow.t :=
  WorkerRow.mk id accountId name (Some "old")
    (Some (worker_url name "old")) (Some "h0") None None
    "2024-01-01 00:00:00".

Definition cf (name : string) : CfWorker.t :=
  CfWorker.mk name (Some "etag") (Some "2024-01-02") None.

(** A provider whose every method succeeds. *)
Definition api (listed : list CfWorker.t) (subdomain : string)
    : CloudflareAPI.t :=
  CloudflareAPI.mk (Ok listed) (Ok subdomain) (λ _, Ok "export default {}")
    (λ _ _ _, Ok tt) (λ _, Ok tt).

(** A provider that lists workers but refuses to delete them. *)
Definition api_delete_fails (listed : list CfWorker.t) : CloudflareAPI.t :=
  CloudflareAPI.mk (Ok listed) (Ok "sub") (λ _, Ok "export default {}")
    (λ _ _ _, Ok tt) (λ _, Err "503 Service Unavailable").

Definition uuid (i : nat) : string := "uuid-" +:+ pretty i.

Definition clock (i : nat) : string := "2024-06-01 12:00:0" +:+ pretty i.

Definition env (a : CloudflareAPI.t) : Env :=
  mkEnv (λ _, a) uuid clock false.

(** An identifier source that returns the same value twice. *)
Definition env_colliding (a : CloudflareAPI.t) : Env :=
  mkEnv (λ _, a) (λ _, "uuid-0") clock false.

Definition store : Db :=
  mkDb [account "A" None; account "C" (Some "c-sub")]
       [row "r1" "A" "alpha"; row "r2" "C" "gamma"; row "r3" "A" "beta"].

Definition world : World := mkWorld store [].
End Sample.

(** ** Definitions used in the statements about the operations *)

(** The store after the [DELETE] statement of a sync that reached it. *)
Definition after_delete (acc : AccountRow.t) (accountId : string) (w : World)
    : World :=
  mkWorld (Sql.delete_workers_of_account accountId (db w))
          (calls w ++ sync_requests acc).

(** The order of the result, on [WorkerRecord]: by [accountId], then by
    [name], both ascending. *)
Definition by_accountId_then_name (r1 r2 : WorkerRecord.t) : Prop :=
  String.le (WorkerRecord.accountId r1) (WorkerRecord.accountId r2) ∧
  (WorkerRecord.accountId r1 = WorkerRecord.accountId r2 →
   String.le (WorkerRecord.name r1) (WorkerRecord.name r2)).

(** What the loop stores for the outcome of one sync. *)
Definition value_of (outcome : result nat) : CountOrMessage :=
  match outcome with
  | Ok count => Count count
  | Err message => error_value message
  end.

(** The syncs of the listed accounts run strictly one after the other: each
    starts in the world the one before left, whatever its outcome. *)
Fixpoint run_in_sequence (envs : nat → Env) (i : nat) (accountIds : list string)
    (w : World) : list (string * result nat) * World :=
  match accountIds with
  | [] => ([], w)
  | accountId :: rest =>
      let (outcome, w1) := syncAccountWorkers (envs i) accountId w in
      let (outcomes, w2) := run_in_sequence envs (S i) rest w1 in
      ((accountId, outcome) :: outcomes, w2)
  end.

Definition record_outcome (results : gmap string CountOrMessage)
    (o : string * result nat) : gmap string CountOrMessage :=
  js_assign o.1 (value_of o.2) results.

Definition list_request (acc : AccountRow.t) : ApiCall :=
  mkCall (AccountRow.id acc) ReqListWorkers.

Definition delete_request (acc : AccountRow.t) (workerName : string) : ApiCall :=
  mkCall (AccountRow.id acc) (ReqDeleteWorker workerName).

Definition update_request (acc : AccountRow.t) (workerName script : string)
    : ApiCall :=
  mkCall (AccountRow.id acc) (ReqUpdateWorkerScript workerName workerName script).

(** The columns of an account row that a sync does not write. *)
Definition same_but_sync_fields (r r' : AccountRow.t) : Prop :=
  AccountRow.id r' = AccountRow.id r ∧
  AccountRow.name r' = AccountRow.name r ∧
  AccountRow.auth_type r' = AccountRow.auth_type r ∧
  AccountRow.account_id r' = AccountRow.account_id r ∧
  AccountRow.api_token r' = AccountRow.api_token r ∧
  AccountRow.auth_email r' = AccountRow.auth_email r ∧
  AccountRow.auth_key r' = AccountRow.auth_key r ∧
  AccountRow.status r' = AccountRow.status r ∧
  AccountRow.last_error r' = AccountRow.last_error r ∧
  AccountRow.created_at r' = AccountRow.created_at r ∧
  AccountRow.updated_at r' = AccountRow.updated_at r.

(** What every row inserted by a sync with the fetched [subdomain] looks
    like: it carries the subdomain, its URL is derived from its name and the
    subdomain, and none of its optional provider fields is the empty
    string. *)
Definition synced_row (accountId subdomain : string) (r : WorkerRow.t) : Prop :=
  WorkerRow.account_id r = accountId ∧
  WorkerRow.subdomain r = Some subdomain ∧
  WorkerRow.url r = Some (worker_url (WorkerRow.name r) subdomain) ∧
  WorkerRow.script_hash r ≠ Some "" ∧
  WorkerRow.created_on r ≠ Some "" ∧
  WorkerRow.modified_on r ≠ Some "".

(** [ids.join(',')] *)
Fixpoint join_comma (ids : list string) : string :=
  match ids with
  | [] => ""
  | [id] => id
  | id :: rest => id +:+ "," +:+ join_comma rest
  end.

(** The string has no comma. *)
Fixpoint comma_free (s : string) : Prop :=
  match s with
  | "" => True
  | String c rest => Ascii.eqb c ","%char = false ∧ comma_free rest
  end.

(** ** Lookups *)

Lemma select_account_None accountId d :
  accountId ∉ AccountRow.id <$> accounts d →
  Sql.select_account accountId d = None.
Proof.
  unfold Sql.select_account. destruct d as [accs ws]; simpl.
  induction accs as [|r accs IH]; simpl; [done|].
  rewrite not_elem_of_cons. intros [Hne Hnot].
  rewrite bool_decide_eq_false_2 by congruence. auto.
Qed.

Lemma select_account_Some accountId d acc :
  Sql.select_account accountId d = Some acc →
  acc ∈ accounts d ∧ AccountRow.id acc = accountId.
Proof.
  unfold Sql.select_account. intros H.
  apply find_some in H as [Hin Hid].
  apply bool_decide_eq_true_1 in Hid. by rewrite list_elem_of_In.
Qed.

Lemma select_worker_Some name accountId d r :
  Sql.select_worker name accountId d = Some r →
  r ∈ workers d ∧ WorkerRow.name r = name ∧ WorkerRow.account_id r = accountId.
Proof.
  unfold Sql.select_worker. intros H.
  apply find_some in H as [Hin Hid].
  apply andb_prop in Hid as [H1 H2].
  apply bool_decide_eq_true_1 in H1, H2. by rewrite list_elem_of_In.
Qed.

Lemma find_cf_None workerName listed :
  workerName ∉ CfWorker.id <$> listed → find_cf workerName listed = None.
Proof.
  unfold find_cf. induction listed as [|c listed IH]; simpl; [done|].
  rewrite not_elem_of_cons. intros [Hne Hnot].
  rewrite bool_decide_eq_false_2 by congruence. auto.
Qed.

Lemma find_cf_is_Some workerName listed :
  workerName ∈ CfWorker.id <$> listed → is_Some (find_cf workerName listed).
Proof.
  unfold find_cf. induction listed as [|c listed IH]; simpl.
  - by intros ?%elem_of_nil.
  - rewrite elem_of_cons. intros [Heq|Hin].
    + rewrite bool_decide_eq_true_2 by done. eauto.
    + destruct (bool_decide _); eauto.
Qed.

(** ** The insert transaction *)

Section insert_loop.
Variables (env : Env) (accountId subdomain : string).

Lemma new_rows_length i fetched :
  length (new_rows env accountId subdomain i fetched) = length fetched.
Proof. revert i. induction fetched; intros; simpl; auto. Qed.

Lemma new_rows_account i fetched r :
  r ∈ new_rows env accountId subdomain i fetched →
  WorkerRow.account_id r = accountId.
Proof.
  revert i. induction fetched as [|c fetched IH]; intros i; simpl.
  - by intros ?%elem_of_nil.
  - rewrite elem_of_cons. intros [->|Hin]; [done|eauto].
Qed.

Lemma new_rows_names i fetched :
  WorkerRow.name <$> new_rows env accountId subdomain i fetched
  = CfWorker.id <$> fetched.
Proof. revert i. induction fetched; intros; simpl; f_equal; auto. Qed.

Lemma new_rows_name_url i fetched :
  name_url <$> new_rows env accountId subdomain i fetched
  = (λ c, (CfWorker.id c, Some (worker_url (CfWorker.id c) subdomain)))
      <$> fetched.
Proof. revert i. induction fetched; intros; simpl; f_equal; auto. Qed.

Lemma new_rows_ids i fetched :
  WorkerRow.id <$> new_rows env accountId subdomain i fetched
  = (λ j, randomUUID env (i + j)) <$> seq 0 (length fetched).
Proof.
  revert i. induction fetched as [|c fetched IH]; intros i; simpl; [done|].
  f_equal; [by rewrite Nat.add_0_r|].
  rewrite IH, <- fmap_S_seq, <- list_fmap_compose.
  apply list_fmap_ext. intros ? j _. simpl. f_equal. lia.
Qed.

(** A returning loop has appended exactly the new rows and nothing else. *)
Lemma insert_loop_Ok fetched i w u w' :
  insert_loop env accountId subdomain i fetched w = (Ok u, w') →
  w' = mkWorld (mkDb (accounts (db w))
                     (workers (db w)
                        ++ new_rows env accountId subdomain i fetched))
               (calls w).
Proof.
  revert i w. induction fetched as [|c fetched IH]; intros i w; simpl.
  - unfold ret. intros [= _ <-]. destruct w as [[] ?]; simpl.
    by rewrite app_nil_r.
  - unfold bind, exec_checked, Sql.insert_worker.
    case_decide; [done|]. intros Hrest%IH. subst w'. simpl.
    by rewrite <- app_assoc.
Qed.

(** The loop can only fail on the primary key, and it issues no provider
    call. *)
Lemma insert_loop_Err fetched i w e w' :
  insert_loop env accountId subdomain i fetched w = (Err e, w') →
  e = Sql.pk_conflict ∧ calls w' = calls w.
Proof.
  revert i w. induction fetched as [|c fetched IH]; intros i w; simpl.
  - by unfold ret.
  - unfold bind, exec_checked, Sql.insert_worker.
    case_decide; [by intros [= <- <-]|]. intros Hrest%IH. by simpl in Hrest.
Qed.

(** With identifiers that are new to the table and pairwise distinct, the
    loop returns. *)
Lemma insert_loop_fresh fetched i w :
  NoDup ((WorkerRow.id <$> workers (db w))
           ++ (WorkerRow.id <$> new_rows env accountId subdomain i fetched)) →
  insert_loop env accountId subdomain i fetched w
  = (Ok tt, mkWorld (mkDb (accounts (db w))
                       (workers (db w)
                          ++ new_rows env accountId subdomain i fetched))
                    (calls w)).
Proof.
  revert i w. induction fetched as [|c fetched IH]; intros i w; simpl.
  - intros _. unfold ret. destruct w as [[] ?]; simpl. by rewrite app_nil_r.
  - intros Hnd. unfold bind, exec_checked, Sql.insert_worker.
    case_decide as Hin.
    + apply NoDup_app in Hnd as (_ & Hdisj & _).
      exfalso. apply (Hdisj _ Hin). simpl. left.
    + rewrite IH; simpl.
      * by rewrite <- app_assoc.
      * rewrite fmap_app. simpl. by rewrite <- app_assoc.
Qed.
End insert_loop.

(** ** [syncAccountWorkers], unfolded once *)

Lemma sync_unknown_account env accountId w :
  Sql.select_account accountId (db w) = None →
  syncAccountWorkers env accountId w = (Err (account_not_found accountId), w).
Proof.
  intros H. unfold syncAccountWorkers, bind, query. by rewrite H.
Qed.

Lemma sync_fetched env accountId w acc fetched subdomain :
  Sql.select_account accountId (db w) = Some acc →
  CloudflareAPI.listWorkers (cloudflare env (mapAccountRow acc)) = Ok fetched →
  CloudflareAPI.getSubdomain (cloudflare env (mapAccountRow acc)) = Ok subdomain →
  syncAccountWorkers env accountId w =
    let w1 := after_delete acc accountId w in
    if decide (length fetched = 0) then (Ok 0, w1)
    else match insert_loop env accountId subdomain 0 fetched w1 with
         | (Ok _, w2) =>
             (Ok (length fetched),
              mkWorld (Sql.update_account_sync subdomain
                         (CURRENT_TIMESTAMP env (length fetched)) accountId
                         (db w2))
                      (calls w2))
         | (Err e, w2) =>
             (Err (sync_failed accountId e), mkWorld (db w1) (calls w2))
         end.
Proof.
  intros Hacc Hlist Hsub.
  unfold syncAccountWorkers, bind, query, try_catch, await_all2.
  rewrite Hacc. simpl. rewrite Hlist, Hsub. simpl.
  case_decide; [done|].
  unfold transaction, after_delete, sync_requests, ret, throw. simpl.
  destruct (insert_loop _ _ _ _ _ _) as [[u|e] w2]; done.
Qed.

(** A sync whose provider call fails stops before any statement writes. *)
Lemma sync_fetch_failed env accountId w acc :
  Sql.select_account accountId (db w) = Some acc →
  is_ok (CloudflareAPI.listWorkers (cloudflare env (mapAccountRow acc)))
    && is_ok (CloudflareAPI.getSubdomain (cloudflare env (mapAccountRow acc)))
    = false →
  ∃ e, syncAccountWorkers env accountId w
       = (Err (sync_failed accountId e),
          mkWorld (db w) (calls w ++ sync_requests acc)).
Proof.
  intros Hacc Hfail.
  unfold syncAccountWorkers, bind, query, try_catch, await_all2.
  rewrite Hacc. simpl.
  destruct (CloudflareAPI.listWorkers _), (CloudflareAPI.getSubdomain _);
    simpl in *; try done; eauto.
Qed.

(** ** Effect of a sync on the two tables *)

Lemma rows_of_delete accountId d :
  rows_of accountId (Sql.delete_workers_of_account accountId d) = [].
Proof.
  unfold rows_of, Sql.delete_workers_of_account. simpl.
  induction (workers d) as [|r l IH]; [done|].
  rewrite (filter_cons (λ r, WorkerRow.account_id r ≠ accountId)).
  case_decide; [|done].
  rewrite filter_cons. by case_decide.
Qed.

Lemma rows_of_new_rows env accountId subdomain i fetched :
  filter (λ r, WorkerRow.account_id r = accountId)
         (new_rows env accountId subdomain i fetched)
  = new_rows env accountId subdomain i fetched.
Proof.
  revert i. induction fetched as [|c fetched IH]; intros i; simpl; [done|].
  rewrite filter_cons. simpl. case_decide; [|done]. by rewrite IH.
Qed.

Lemma rows_not_of_new_rows env accountId subdomain i fetched :
  filter (λ r, WorkerRow.account_id r ≠ accountId)
         (new_rows env accountId subdomain i fetched)
  = [].
Proof.
  revert i. induction fetched as [|c fetched IH]; intros i; simpl; [done|].
  rewrite filter_cons. simpl. case_decide; [done|]. by rewrite IH.
Qed.

(** What a returning sync leaves behind. *)
Lemma sync_Ok env accountId w acc fetched subdomain n w' :
  Sql.select_account accountId (db w) = Some acc →
  CloudflareAPI.listWorkers (cloudflare env (mapAccountRow acc)) = Ok fetched →
  CloudflareAPI.getSubdomain (cloudflare env (mapAccountRow acc)) = Ok subdomain →
  syncAccountWorkers env accountId w = (Ok n, w') →
  n = length fetched ∧
  workers (db w')
    = rows_not_of accountId (db w) ++ new_rows env accountId subdomain 0 fetched ∧
  accounts (db w')
    = (if decide (length fetched = 0) then accounts (db w)
       else accounts (Sql.update_account_sync subdomain
                        (CURRENT_TIMESTAMP env (length fetched)) accountId
                        (db w))) ∧
  calls w' = calls w ++ sync_requests acc.
Proof.
  intros Hacc Hlist Hsub. rewrite (sync_fetched _ _ _ _ _ _ Hacc Hlist Hsub).
  simpl. case_decide as Hlen.
  - intros [= <- <-]. apply nil_length_inv in Hlen. subst fetched.
    simpl. by rewrite app_nil_r.
  - destruct (insert_loop _ _ _ _ _ _) as [[u|e] w2] eqn:Hloop; [|done].
    intros [= <- <-]. apply insert_loop_Ok in Hloop. by subst w2.
Qed.

(** With identifiers new to the table and pairwise distinct, a sync whose
    provider calls succeed returns. *)
Lemma sync_returns env accountId w acc fetched subdomain :
  Sql.select_account accountId (db w) = Some acc →
  CloudflareAPI.listWorkers (cloudflare env (mapAccountRow acc)) = Ok fetched →
  CloudflareAPI.getSubdomain (cloudflare env (mapAccountRow acc)) = Ok subdomain →
  NoDup ((WorkerRow.id <$> rows_not_of accountId (db w))
           ++ ((λ j, randomUUID env j) <$> seq 0 (length fetched))) →
  ∃ w', syncAccountWorkers env accountId w = (Ok (length fetched), w').
Proof.
  intros Hacc Hlist Hsub Hnd.
  rewrite (sync_fetched _ _ _ _ _ _ Hacc Hlist Hsub). simpl.
  case_decide as Hlen; [rewrite Hlen; eauto|].
  rewrite insert_loop_fresh; [eauto|].
  simpl. by rewrite new_rows_ids.
Qed.

(** A sync that fails after the provider answered has emptied the mirror of
    the account: the [DELETE] ran before, and outside, the transaction that
    was rolled back. *)
Lemma sync_Err_after_fetch env accountId w acc fetched subdomain e w' :
  Sql.select_account accountId (db w) = Some acc →
  CloudflareAPI.listWorkers (cloudflare env (mapAccountRow acc)) = Ok fetched →
  CloudflareAPI.getSubdomain (cloudflare env (mapAccountRow acc)) = Ok subdomain →
  syncAccountWorkers env accountId w = (Err e, w') →
  e = sync_failed accountId Sql.pk_conflict ∧
  db w' = Sql.delete_workers_of_account accountId (db w) ∧
  rows_of accountId (db w') = [].
Proof.
  intros Hacc Hlist Hsub. rewrite (sync_fetched _ _ _ _ _ _ Hacc Hlist Hsub).
  simpl. case_decide as Hlen; [done|].
  destruct (insert_loop _ _ _ _ _ _) as [[u|e'] w2] eqn:Hloop; [done|].
  intros [= <- <-]. apply insert_loop_Err in Hloop as [-> _]. simpl.
  split_and!; [done..|apply rows_of_delete].
Qed.

(** A sync that fetched an empty list returns before the statement that
    updates the account. *)
Lemma sync_empty env accountId w acc subdomain :
  Sql.select_account accountId (db w) = Some acc →
  CloudflareAPI.listWorkers (cloudflare env (mapAccountRow acc)) = Ok [] →
  CloudflareAPI.getSubdomain (cloudflare env (mapAccountRow acc)) = Ok subdomain →
  syncAccountWorkers env accountId w = (Ok 0, after_delete acc accountId w).
Proof.
  intros Hacc Hlist Hsub. by rewrite (sync_fetched _ _ _ _ _ _ Hacc Hlist Hsub).
Qed.

(** A returning sync of a non-empty list stamps the account row. *)
Lemma sync_nonempty_updates_account env accountId w acc fetched subdomain n w' :
  Sql.select_account accountId (db w) = Some acc →
  CloudflareAPI.listWorkers (cloudflare env (mapAccountRow acc)) = Ok fetched →
  CloudflareAPI.getSubdomain (cloudflare env (mapAccountRow acc)) = Ok subdomain →
  fetched ≠ [] →
  syncAccountWorkers env accountId w = (Ok n, w') →
  Sql.select_account accountId (db w')
    = Some (Sql.set_sync_fields subdomain
              (CURRENT_TIMESTAMP env (length fetched)) acc).
Proof.
  intros Hacc Hlist Hsub Hne Hrun.
  destruct (sync_Ok _ _ _ _ _ _ _ _ Hacc Hlist Hsub Hrun) as (_ & _ & Haccs & _).
  rewrite decide_False in Haccs by (by destruct fetched).
  unfold Sql.select_account in *. rewrite Haccs. simpl.
  induction (accounts (db w)) as [|r l IH]; [done|]. simpl in *.
  case_decide as Hid; simpl.
  - rewrite bool_decide_eq_true_2 in * by done. congruence.
  - rewrite bool_decide_eq_false_2 in * by done. auto.
Qed.

(** ** Properties of [syncAccountWorkers] *)

(** C1. The claim: the deletion of the account's rows and the insertion of
    the fetched rows form one transaction, so a failure during the insertion
    leaves the previously committed rows of the account in the store. The
    code runs the [DELETE] statement before the transaction, which encloses
    the inserts only. Here account A has two committed rows, the provider
    lists two workers and the second insert is refused by the primary key:
    the sync fails and the mirror of A is left empty. *)
Theorem sync_insert_failure_loses_committed_rows :
  let env := Sample.env_colliding
               (Sample.api [Sample.cf "w1"; Sample.cf "w2"] "sub") in
  rows_of "A" (db Sample.world)
    = [Sample.row "r1" "A" "alpha"; Sample.row "r3" "A" "beta"] ∧
  ∃ w', syncAccountWorkers env "A" Sample.world
          = (Err (sync_failed "A" Sql.pk_conflict), w') ∧
        rows_of "A" (db w') = [] ∧
        workers (db w') = [Sample.row "r2" "C" "gamma"].
Proof.
  simpl. split; [by vm_compute|].
  eexists. split; [by vm_compute|]. by vm_compute.
Qed.

(** C2. For an account of the store and a provider answer of zero or more
    workers, after a returning sync the rows of the account are exactly the
    rows built from the answer, one per fetched worker and in the same order,
    so their names are the provider's names and no earlier row is left; the
    rows of other accounts are untouched and the result is the number of
    fetched workers. On an empty answer the sync returns 0 (not an error),
    having deleted the rows of the account and inserted none. *)
Theorem sync_mirrors_provider env accountId w acc fetched subdomain :
  Sql.select_account accountId (db w) = Some acc →
  CloudflareAPI.listWorkers (cloudflare env (mapAccountRow acc)) = Ok fetched →
  CloudflareAPI.getSubdomain (cloudflare env (mapAccountRow acc)) = Ok subdomain →
  (∀ n w',
     syncAccountWorkers env accountId w = (Ok n, w') →
     n = length fetched ∧
     rows_of accountId (db w') = new_rows env accountId subdomain 0 fetched ∧
     WorkerRow.name <$> rows_of accountId (db w') = CfWorker.id <$> fetched ∧
     rows_not_of accountId (db w') = rows_not_of accountId (db w)) ∧
  (fetched = [] →
   ∃ w', syncAccountWorkers env accountId w = (Ok 0, w') ∧
         rows_of accountId (db w') = [] ∧
         workers (db w') = rows_not_of accountId (db w)).
Proof.
  intros Hacc Hlist Hsub. split.
  - intros n w' Hrun.
    destruct (sync_Ok _ _ _ _ _ _ _ _ Hacc Hlist Hsub Hrun) as (-> & Hw & _ & _).
    assert (rows_of accountId (db w')
            = new_rows env accountId subdomain 0 fetched) as Hrows.
    { unfold rows_of, rows_not_of. rewrite Hw, filter_app, rows_of_new_rows.
      rewrite <- (app_nil_l (new_rows _ _ _ _ _)) at 2. f_equal.
      apply (rows_of_delete accountId (db w)). }
    split_and!; [done|done|by rewrite Hrows, new_rows_names|].
    unfold rows_not_of at 1. rewrite Hw, filter_app, rows_not_of_new_rows.
    rewrite app_nil_r. unfold rows_not_of. apply list_filter_filter_l. auto.
  - intros ->. eexists. split; [by eapply sync_empty|].
    split; [apply rows_of_delete|done].
Qed.

Lemma sync_mirrors_provider_witness :
  let env := Sample.env (Sample.api [Sample.cf "w1"; Sample.cf "w2"] "sub") in
  ∃ w', syncAccountWorkers env "A" Sample.world = (Ok 2, w') ∧
        WorkerRow.name <$> rows_of "A" (db w') = ["w1"; "w2"] ∧
        rows_not_of "A" (db w') = [Sample.row "r2" "C" "gamma"].
Proof.
  intros env. eexists. split; [vm_compute; reflexivity|].
  destruct (sync_mirrors_provider env "A" Sample.world
              (Sample.account "A" None) [Sample.cf "w1"; Sample.cf "w2"] "sub"
              eq_refl eq_refl eq_refl) as [Hrun _].
  destruct (Hrun 2 _ eq_refl) as (_ & _ & Hnames & Hothers).
  split; [exact Hnames|exact Hothers].
Defined.

(** C3. The claim: every returning sync, also one that synced zero workers,
    sets the account's subdomain and lastCheck to the fetched subdomain and
    the current time. The code returns 0 on an empty list before it reaches
    the [UPDATE accounts] statement. Here account A has no subdomain and no
    lastCheck, the provider lists no worker and reports subdomain "sub": the
    sync returns 0 and the account row is as it was. *)
Theorem sync_of_zero_workers_skips_account_update :
  let env := Sample.env (Sample.api [] "sub") in
  ∃ w', syncAccountWorkers env "A" Sample.world = (Ok 0, w') ∧
        accounts (db w') = accounts (db Sample.world) ∧
        AccountRow.subdomain <$> Sql.select_account "A" (db w') = Some None ∧
        AccountRow.last_check <$> Sql.select_account "A" (db w') = Some None.
Proof.
  simpl. eexists. split; [by vm_compute|]. by vm_compute.
Qed.

(** C6. Re-sync is idempotent: when a sync of an account returns and a second
    sync, run on the resulting store with the same provider answer (same
    worker list, same subdomain), returns as well, both return the same
    count, the account has the same number of rows and the same (name, url)
    pairs, in the same order, after the second sync as after the first; this
    holds for the whole table too. *)
Theorem resync_idempotent env1 env2 accountId w acc1 acc2 fetched subdomain
    n1 w1 n2 w2 :
  Sql.select_account accountId (db w) = Some acc1 →
  CloudflareAPI.listWorkers (cloudflare env1 (mapAccountRow acc1)) = Ok fetched →
  CloudflareAPI.getSubdomain (cloudflare env1 (mapAccountRow acc1)) = Ok subdomain →
  syncAccountWorkers env1 accountId w = (Ok n1, w1) →
  Sql.select_account accountId (db w1) = Some acc2 →
  CloudflareAPI.listWorkers (cloudflare env2 (mapAccountRow acc2)) = Ok fetched →
  CloudflareAPI.getSubdomain (cloudflare env2 (mapAccountRow acc2)) = Ok subdomain →
  syncAccountWorkers env2 accountId w1 = (Ok n2, w2) →
  n2 = n1 ∧
  length (rows_of accountId (db w2)) = length (rows_of accountId (db w1)) ∧
  name_url <$> rows_of accountId (db w2) = name_url <$> rows_of accountId (db w1) ∧
  name_url <$> workers (db w2) = name_url <$> workers (db w1).
Proof.
  intros Hacc1 Hlist1 Hsub1 Hrun1 Hacc2 Hlist2 Hsub2 Hrun2.
  destruct (sync_Ok _ _ _ _ _ _ _ _ Hacc1 Hlist1 Hsub1 Hrun1)
    as (-> & Hw1 & _ & _).
  destruct (sync_Ok _ _ _ _ _ _ _ _ Hacc2 Hlist2 Hsub2 Hrun2)
    as (-> & Hw2 & _ & _).
  assert (rows_not_of accountId (db w1) = rows_not_of accountId (db w)) as Hkeep.
  { unfold rows_not_of at 1. rewrite Hw1, filter_app, rows_not_of_new_rows.
    rewrite app_nil_r. unfold rows_not_of. apply list_filter_filter_l. auto. }
  assert (∀ env w', workers (db w')
            = rows_not_of accountId (db w)
                ++ new_rows env accountId subdomain 0 fetched →
          rows_of accountId (db w')
            = new_rows env accountId subdomain 0 fetched) as Hrows.
  { intros env w' Hw'. unfold rows_of, rows_not_of.
    rewrite Hw', filter_app, rows_of_new_rows.
    rewrite <- (app_nil_l (new_rows _ _ _ _ _)) at 2. f_equal.
    apply (rows_of_delete accountId (db w)). }
  rewrite Hkeep in Hw2.
  rewrite (Hrows _ _ Hw1), (Hrows _ _ Hw2), Hw1, Hw2.
  rewrite !fmap_app, !new_rows_name_url, !new_rows_length. done.
Qed.

Lemma resync_idempotent_witness :
  let env := Sample.env (Sample.api [Sample.cf "w1"; Sample.cf "w2"] "sub") in
  let env' := mkEnv (cloudflare env) (λ i, "second-" +:+ randomUUID env i)
                (CURRENT_TIMESTAMP env) false in
  let w1 := (syncAccountWorkers env "A" Sample.world).2 in
  let w2 := (syncAccountWorkers env' "A" w1).2 in
  name_url <$> rows_of "A" (db w2) = name_url <$> rows_of "A" (db w1) ∧
  name_url <$> rows_of "A" (db w2)
    = [("w1", Some "https://w1.sub.workers.dev");
       ("w2", Some "https://w2.sub.workers.dev")].
Proof.
  intros env env' w1 w2. split; [|by vm_compute].
  refine (proj1 (proj2 (proj2
    (resync_idempotent env env' "A" Sample.world
       (Sample.account "A" None)
       (Sql.set_sync_fields "sub" (Sample.clock 2) (Sample.account "A" None))
       [Sample.cf "w1"; Sample.cf "w2"] "sub" 2 w1 2 w2
       eq_refl eq_refl eq_refl _ _ eq_refl eq_refl _)))); by vm_compute.
Defined.

(** C10. For an account id that is absent from the account store, the sync
    fails with the account-not-found error and changes nothing: neither the
    workers table nor the accounts table, and no provider call is made. *)
Theorem sync_unknown_account_fails_without_mutation env accountId w :
  accountId ∉ AccountRow.id <$> accounts (db w) →
  syncAccountWorkers env accountId w = (Err (account_not_found accountId), w).
Proof.
  intros Habsent. apply sync_unknown_account. by apply select_account_None.
Qed.

Lemma sync_unknown_account_fails_without_mutation_witness :
  syncAccountWorkers (Sample.env (Sample.api [Sample.cf "w1"] "sub")) "B"
    Sample.world
  = (Err "Account B not found", Sample.world).
Proof.
  apply (sync_unknown_account_fails_without_mutation
           (Sample.env (Sample.api [Sample.cf "w1"] "sub")) "B" Sample.world).
  apply (bool_decide_unpack _). by vm_compute.
Defined.

(** ** [getWorkers] *)

Global Instance order_by_account_name_total : Total Sql.order_by_account_name.
Proof.
  intros r1 r2. unfold Sql.order_by_account_name.
  destruct (decide (WorkerRow.account_id r1 = WorkerRow.account_id r2)) as [Heq|Hne].
  - rewrite Heq.
    destruct (total String.le (WorkerRow.name r1) (WorkerRow.name r2));
      [left|right]; done.
  - destruct (total String.le (WorkerRow.account_id r1) (WorkerRow.account_id r2));
      [left|right]; split; congruence.
Qed.

Global Instance order_by_account_name_trans : Transitive Sql.order_by_account_name.
Proof.
  intros r1 r2 r3 [Ha12 Hn12] [Ha23 Hn23]. split; [by etrans|].
  intros Heq. rewrite <- Heq in Ha23.
  assert (WorkerRow.account_id r1 = WorkerRow.account_id r2) as H12
    by (by apply (anti_symm String.le)).
  etrans; [by apply Hn12|]. apply Hn23. congruence.
Qed.

Lemma insert_in_order_Permutation r ordered :
  Sql.insert_in_order r ordered ≡ₚ r :: ordered.
Proof.
  induction ordered as [|x rest IH]; simpl; [done|].
  case_decide; [done|]. rewrite IH. apply Permutation_swap.
Qed.

Lemma order_rows_Permutation rows : Sql.order_rows rows ≡ₚ rows.
Proof.
  induction rows as [|r rows IH]; simpl; [done|].
  by rewrite insert_in_order_Permutation, IH.
Qed.

Lemma insert_in_order_Sorted r ordered :
  Sorted Sql.order_by_account_name ordered →
  Sorted Sql.order_by_account_name (Sql.insert_in_order r ordered).
Proof.
  induction 1 as [|x rest Hsorted IH Hhd]; simpl.
  - by repeat constructor.
  - case_decide as Hrx.
    + constructor; [by constructor|by constructor].
    + constructor; [done|].
      assert (Sql.order_by_account_name x r) as Hxr
        by (by destruct (total Sql.order_by_account_name x r)).
      destruct Hhd as [|y rest' Hxy]; simpl; [by constructor|].
      case_decide; by constructor.
Qed.

Lemma order_rows_Sorted rows :
  Sorted Sql.order_by_account_name (Sql.order_rows rows).
Proof.
  induction rows as [|r rows IH]; simpl; [constructor|].
  by apply insert_in_order_Sorted.
Qed.

Lemma filter_insert_in_order account_id name r ordered :
  filter (λ r, WorkerRow.account_id r = account_id ∧ WorkerRow.name r = name)
         (Sql.insert_in_order r ordered)
  = filter (λ r, WorkerRow.account_id r = account_id ∧ WorkerRow.name r = name)
           (r :: ordered).
Proof.
  induction ordered as [|x rest IH]; [done|].
  cbn [Sql.insert_in_order]. case_decide as Hrx; [done|].
  rewrite (filter_cons _ x), IH, !filter_cons.
  repeat case_decide; try done.
  exfalso. apply Hrx. unfold Sql.order_by_account_name.
  destruct_and!. split; [|intros _]; apply reflexive_eq; congruence.
Qed.

(** The sort is stable: the rows with one given (account_id, name) come out
    in table order. *)
Lemma order_rows_stable account_id name rows :
  filter (λ r, WorkerRow.account_id r = account_id ∧ WorkerRow.name r = name)
         (Sql.order_rows rows)
  = filter (λ r, WorkerRow.account_id r = account_id ∧ WorkerRow.name r = name)
           rows.
Proof.
  induction rows as [|r rows IH]; [done|].
  cbn [Sql.order_rows foldr]. rewrite filter_insert_in_order.
  rewrite !(filter_cons _ r). fold (Sql.order_rows rows). by rewrite IH.
Qed.

Lemma getWorkers_sorted accountIds d :
  StronglySorted by_accountId_then_name (getWorkers accountIds d).
Proof.
  unfold getWorkers.
  apply (StronglySorted_fmap _ Sql.order_by_account_name); [done|].
  apply Sorted_StronglySorted; [apply _|]. apply order_rows_Sorted.
Qed.

Lemma getWorkers_unfiltered accountIds d :
  accountIds = None ∨ accountIds = Some [] →
  getWorkers accountIds d ≡ₚ mapWorkerRow <$> workers d.
Proof.
  intros [-> | ->]; unfold getWorkers; by rewrite order_rows_Permutation.
Qed.

Lemma getWorkers_filtered ids d :
  ids ≠ [] →
  getWorkers (Some ids) d
  ≡ₚ mapWorkerRow <$> filter (λ r, WorkerRow.account_id r ∈ ids) (workers d).
Proof.
  intros Hne. unfold getWorkers. destruct ids; [done|].
  apply fmap_Permutation, order_rows_Permutation.
Qed.

(** C4, the claim as stated, fails on the empty filter list: the code adds
    the [WHERE] clause only when [accountIds.length > 0], so an empty list
    selects every row instead of none. On the sample store, whose table has
    three rows, [getWorkers([])] returns three records. *)
Lemma getWorkers_empty_filter_returns_all_rows :
  ¬ (∀ ids d,
       getWorkers (Some ids) d
       ≡ₚ mapWorkerRow
            <$> filter (λ r, WorkerRow.account_id r ∈ ids) (workers d)).
Proof.
  intros H. specialize (H [] Sample.store).
  apply Permutation_length in H. vm_compute in H. discriminate.
Qed.

(** C4, amended. For every non-empty filter list, [getWorkers] returns
    exactly the rows whose accountId is in the list; with no filter, or with
    the empty list, it returns all rows; in every case the result is ordered
    by (accountId, name) ascending; and a non-empty filter that matches no
    row yields the empty sequence. *)
Theorem getWorkers_contract accountIds d :
  (∀ ids, accountIds = Some ids → ids ≠ [] →
     getWorkers accountIds d
     ≡ₚ mapWorkerRow
          <$> filter (λ r, WorkerRow.account_id r ∈ ids) (workers d)) ∧
  (accountIds = None ∨ accountIds = Some [] →
     getWorkers accountIds d ≡ₚ mapWorkerRow <$> workers d) ∧
  StronglySorted by_accountId_then_name (getWorkers accountIds d) ∧
  (∀ ids, accountIds = Some ids → ids ≠ [] →
     (∀ r, r ∈ workers d → WorkerRow.account_id r ∉ ids) →
     getWorkers accountIds d = []).
Proof.
  split_and!.
  - intros ids -> Hne. by apply getWorkers_filtered.
  - apply getWorkers_unfiltered.
  - apply getWorkers_sorted.
  - intros ids -> Hne Hnone. apply Permutation_nil_r.
    rewrite (getWorkers_filtered _ _ Hne).
    replace (filter _ (workers d)) with (@nil WorkerRow.t); [done|].
    symmetry. induction (workers d) as [|r l IH]; [done|].
    rewrite filter_cons. case_decide as Hin.
    + exfalso. apply (Hnone r); [left|done].
    + apply IH. intros r' Hr'. apply Hnone. by right.
Qed.

Lemma getWorkers_contract_witness :
  getWorkers (Some ["C"; "Z"]) Sample.store
    ≡ₚ [mapWorkerRow (Sample.row "r2" "C" "gamma")] ∧
  getWorkers (Some ["Z"]) Sample.store = [] ∧
  getWorkers None Sample.store
    = mapWorkerRow <$> [Sample.row "r1" "A" "alpha"; Sample.row "r3" "A" "beta";
                        Sample.row "r2" "C" "gamma"].
Proof.
  split_and!.
  - exact (proj1 (getWorkers_contract (Some ["C"; "Z"]) Sample.store)
             ["C"; "Z"] eq_refl ltac:(discriminate)).
  - refine (proj2 (proj2 (proj2 (getWorkers_contract (Some ["Z"]) Sample.store)))
             ["Z"] eq_refl ltac:(discriminate) _).
    apply Forall_forall, (bool_decide_unpack _). by vm_compute.
  - by vm_compute.
Defined.

(** ** [syncMultipleAccounts] *)

Lemma run_in_sequence_ids envs i accountIds w :
  (run_in_sequence envs i accountIds w).1.*1 = accountIds.
Proof.
  revert i w. induction accountIds as [|a l IH]; intros i w; simpl; [done|].
  destruct (syncAccountWorkers _ _ _) as [r w1].
  specialize (IH (S i) w1). destruct (run_in_sequence _ _ _ _) as [os w2].
  simpl in *. by f_equal.
Qed.

(** The loop never throws: it returns the object in which the outcomes of
    the sequential syncs were recorded in order, and the world the last sync
    left. *)
Lemma sync_loop_sequential envs i accountIds results w :
  sync_loop envs i accountIds results w
  = (Ok (foldl record_outcome results (run_in_sequence envs i accountIds w).1),
     (run_in_sequence envs i accountIds w).2).
Proof.
  revert i results w.
  induction accountIds as [|a l IH]; intros i results w; simpl; [done|].
  unfold bind at 1, try_catch, bind at 1, ret.
  destruct (syncAccountWorkers _ _ _) as [[n|e] w1]; rewrite IH;
    by destruct (run_in_sequence _ _ _ _).
Qed.

Lemma record_outcomes_other key results outcomes :
  key ∉ outcomes.*1 →
  foldl record_outcome results outcomes !! key = results !! key.
Proof.
  revert results. induction outcomes as [|[a r] os IH]; intros results; [done|].
  simpl. rewrite not_elem_of_cons. intros [Hne Hnot]. rewrite IH by done.
  unfold record_outcome, js_assign. simpl. case_decide; [done|].
  by rewrite lookup_insert_ne.
Qed.

(** Every key of the object carries the value of the last outcome recorded
    under it; the key [__proto__] is never created. *)
Lemma record_outcomes_lookup key results outcomes :
  key ∈ outcomes.*1 → key ≠ "__proto__" →
  ∃ outcome, (key, outcome) ∈ outcomes ∧
             foldl record_outcome results outcomes !! key
             = Some (value_of outcome).
Proof.
  intros Hin Hkey. revert results Hin.
  induction outcomes as [|[a r] os IH]; intros results; simpl.
  - by intros ?%elem_of_nil.
  - intros Hin. destruct (decide (key ∈ os.*1)) as [Hlater|Hlast].
    + destruct (IH (record_outcome results (a, r)) Hlater) as (o & Ho & Hlook).
      exists o. split; [by right|done].
    + apply elem_of_cons in Hin as [->|?]; [|done].
      exists r. split; [left|].
      rewrite record_outcomes_other by done.
      unfold record_outcome, js_assign. simpl.
      rewrite decide_False by done. apply lookup_insert_eq.
Qed.

Lemma record_outcomes_proto results outcomes :
  foldl record_outcome results outcomes !! "__proto__" = results !! "__proto__".
Proof.
  revert results. induction outcomes as [|[a r] os IH]; intros results; [done|].
  simpl. rewrite IH. unfold record_outcome, js_assign. simpl.
  case_decide; [done|]. by rewrite lookup_insert_ne.
Qed.

(** [syncMultipleAccounts] processes the accounts in sequence, never throws,
    and records each outcome, a count or the message of the caught error
    behind the prefix "Error: ", under the account's key, for every requested
    id other than [__proto__]. *)
Lemma syncMultipleAccounts_records_outcomes envs accountIds w :
  ∃ results,
    syncMultipleAccounts envs accountIds w
    = (Ok results, (run_in_sequence envs 0 accountIds w).2) ∧
    ∀ accountId, accountId ∈ accountIds → accountId ≠ "__proto__" →
      ∃ outcome,
        (accountId, outcome) ∈ (run_in_sequence envs 0 accountIds w).1 ∧
        results !! accountId = Some (value_of outcome).
Proof.
  unfold syncMultipleAccounts. rewrite sync_loop_sequential.
  eexists. split; [done|]. intros a Hin Hkey.
  apply record_outcomes_lookup; [|done]. by rewrite run_in_sequence_ids.
Qed.

(** The example of the specification: A syncs three workers, the lookup of B
    fails, and both keys are in the result. *)
Example syncMultipleAccounts_A_B :
  let env := Sample.env
               (Sample.api [Sample.cf "w1"; Sample.cf "w2"; Sample.cf "w3"] "sub") in
  (syncMultipleAccounts (λ _, env) ["A"; "B"] Sample.world).1
  = Ok {[ "A" := Count 3; "B" := Message "Error: Account B not found" ]}.
Proof. by vm_compute. Qed.

(** C5. The claim: the result maps every requested id to a count or to an
    error message. The code stores the outcomes with [results[accountId] =
    ...] in an object made by [{}]: under the requested id [__proto__] the
    assignment of a number or a string stores nothing, so that id is not a
    key of the result. Here the ids A and [__proto__] are requested: both are
    processed, in sequence and without an exception, and the result has the
    key A only. *)
Theorem syncMultipleAccounts_drops_proto_key :
  let env := Sample.env (Sample.api [Sample.cf "w1"; Sample.cf "w2"] "sub") in
  ∃ results w',
    syncMultipleAccounts (λ _, env) ["A"; "__proto__"] Sample.world
    = (Ok results, w') ∧
    results !! "A" = Some (Count 2) ∧
    results !! "__proto__" = None ∧
    (run_in_sequence (λ _, env) 0 ["A"; "__proto__"] Sample.world).1
    = [("A", Ok 2); ("__proto__", Err "Account __proto__ not found")].
Proof.
  simpl. unfold syncMultipleAccounts. rewrite sync_loop_sequential.
  eexists _, _. split; [done|]. split_and!.
  - by vm_compute.
  - by rewrite record_outcomes_proto.
  - by vm_compute.
Qed.

(** ** [updateWorkerScript] and [deleteWorker] *)

(** The three "not found" messages of [updateWorkerScript] differ from one
    another, whatever the names. *)
Lemma not_found_messages_distinct workerName accountId :
  worker_not_in_cloudflare workerName ≠ worker_not_in_account workerName accountId ∧
  worker_not_in_cloudflare workerName ≠ account_not_found accountId ∧
  worker_not_in_account workerName accountId ≠ account_not_found accountId.
Proof.
  unfold worker_not_in_cloudflare, worker_not_in_account, account_not_found.
  split_and!; intros H.
  - apply (inj (String.app "Worker ")), (inj (String.app workerName)) in H.
    cbv in H. discriminate.
  - cbv in H. discriminate.
  - cbv in H. discriminate.
Qed.

Lemma deleteWorker_unfold env workerName accountId w acc row listed :
  Sql.select_account accountId (db w) = Some acc →
  Sql.select_worker workerName accountId (db w) = Some row →
  CloudflareAPI.listWorkers (cloudflare env (mapAccountRow acc)) = Ok listed →
  deleteWorker env workerName accountId w =
    match find_cf workerName listed with
    | None =>
        (Ok tt, mkWorld (Sql.delete_worker (WorkerRow.id row) (db w))
                        (calls w ++ [list_request acc]))
    | Some _ =>
        match CloudflareAPI.deleteWorker (cloudflare env (mapAccountRow acc))
                workerName with
        | Ok _ =>
            (Ok tt, mkWorld (Sql.delete_worker (WorkerRow.id row) (db w))
                      ((calls w ++ [list_request acc])
                         ++ [delete_request acc workerName]))
        | Err e =>
            (Err e, mkWorld (db w)
                      ((calls w ++ [list_request acc])
                         ++ [delete_request acc workerName]))
        end
    end.
Proof.
  intros Hacc Hrow Hlist. unfold deleteWorker, bind, query, await.
  rewrite Hacc, Hrow, Hlist. simpl.
  destruct (find_cf workerName listed); [|done].
  by destruct (CloudflareAPI.deleteWorker _ _).
Qed.

Lemma updateWorkerScript_Ok env workerName accountId script w u w' :
  updateWorkerScript env workerName accountId script w = (Ok u, w') →
  ∃ acc row,
    Sql.select_account accountId (db w) = Some acc ∧
    Sql.select_worker workerName accountId (db w) = Some row ∧
    w' = mkWorld (Sql.touch_worker (CURRENT_TIMESTAMP env 0) (WorkerRow.id row)
                    (db w))
                 (calls w ++ [list_request acc;
                              update_request acc workerName script]).
Proof.
  unfold updateWorkerScript, bind, query, await.
  destruct (Sql.select_account _ _) as [acc|] eqn:Hacc; [|done].
  destruct (Sql.select_worker _ _ _) as [row|] eqn:Hrow; [|done].
  destruct (CloudflareAPI.listWorkers _) as [listed|]; [|done]. simpl.
  destruct (find_cf _ _); [|done]. simpl.
  destruct (CloudflareAPI.updateWorkerScript _ _ _ _); [|done].
  unfold exec. simpl. intros [= _ <-]. exists acc, row.
  by rewrite <- app_assoc.
Qed.

(** With identifiers as primary key, a row of the table is determined by its
    id. *)
Lemma pk_row_by_id d r1 r2 :
  workers_pk d → r1 ∈ workers d → r2 ∈ workers d →
  WorkerRow.id r1 = WorkerRow.id r2 → r1 = r2.
Proof.
  unfold workers_pk. induction (workers d) as [|r l IH]; simpl.
  - by intros _ ?%elem_of_nil.
  - rewrite NoDup_cons. intros [Hfresh Hnd].
    rewrite !elem_of_cons. intros [->|H1] [->|H2] Hid; auto.
    + exfalso. apply Hfresh. rewrite Hid. by apply list_elem_of_fmap_2.
    + exfalso. apply Hfresh. rewrite <- Hid. by apply list_elem_of_fmap_2.
Qed.

(** C7, the claim as stated, fails when the provider lists the worker and
    the remote delete that is then issued fails: the error is raised and the
    local row stays. Here account A and its local row "alpha" exist, the
    provider lists "alpha" and answers the delete with an error. *)
Lemma deleteWorker_remote_failure_keeps_local_row :
  let env := Sample.env (Sample.api_delete_fails [Sample.cf "alpha"]) in
  Sql.select_account "A" (db Sample.world) = Some (Sample.account "A" None) ∧
  Sql.select_worker "alpha" "A" (db Sample.world)
    = Some (Sample.row "r1" "A" "alpha") ∧
  is_Some (find_cf "alpha" [Sample.cf "alpha"]) ∧
  ∃ w', deleteWorker env "alpha" "A" Sample.world
          = (Err "503 Service Unavailable", w') ∧
        db w' = db Sample.world ∧
        Sample.row "r1" "A" "alpha" ∈ workers (db w').
Proof.
  simpl. split_and!; [done|done|by eexists|].
  eexists. split; [by vm_compute|]. split; [done|]. simpl. left.
Qed.

Lemma select_account_is_Some accountId d :
  accountId ∈ AccountRow.id <$> accounts d →
  is_Some (Sql.select_account accountId d).
Proof.
  unfold Sql.select_account. induction (accounts d) as [|r l IH]; simpl.
  - by intros ?%elem_of_nil.
  - rewrite elem_of_cons. intros [->|Hin].
    + rewrite bool_decide_eq_true_2 by done. by eexists.
    + destruct (bool_decide _); [by eexists|auto].
Qed.

Lemma select_worker_is_Some name accountId d :
  (∃ r, r ∈ workers d ∧ WorkerRow.name r = name ∧
        WorkerRow.account_id r = accountId) →
  is_Some (Sql.select_worker name accountId d).
Proof.
  unfold Sql.select_worker. intros (r & Hin & Hname & Hacc).
  induction (workers d) as [|x l IH]; simpl.
  - by apply elem_of_nil in Hin.
  - apply elem_of_cons in Hin as [<-|Hin].
    + rewrite !bool_decide_eq_true_2 by done. by eexists.
    + destruct (_ && _); [by eexists|auto].
Qed.

(** When the provider's list cannot be obtained, [deleteWorker] raises that
    error after the list request alone and writes nothing. *)
Lemma deleteWorker_list_failed env workerName accountId w acc row e :
  Sql.select_account accountId (db w) = Some acc →
  Sql.select_worker workerName accountId (db w) = Some row →
  CloudflareAPI.listWorkers (cloudflare env (mapAccountRow acc)) = Err e →
  deleteWorker env workerName accountId w
  = (Err e, mkWorld (db w) (calls w ++ [list_request acc])).
Proof.
  intros Hacc Hrow Hlist. unfold deleteWorker, bind, query, await.
  by rewrite Hacc, Hrow, Hlist.
Qed.

(** The case the provider's list call fails, on the sample store: the error
    is raised, no remote delete is issued and the local row stays. *)
Example deleteWorker_list_failure_keeps_local_row :
  let api := CloudflareAPI.mk (Err "429 Too Many Requests") (Ok "sub")
               (λ _, Ok "") (λ _ _ _, Ok tt) (λ _, Ok tt) in
  deleteWorker (Sample.env api) "alpha" "A" Sample.world
  = (Err "429 Too Many Requests",
     mkWorld Sample.store [mkCall "A" ReqListWorkers]).
Proof. by vm_compute. Qed.

(** C7, amended. When the account exists and a local row with that name and
    account exists, [deleteWorker] selects such a row and asks the provider
    for its list. If the list call fails, its error is raised, no remote
    delete is issued and the store is left as it was. If the list is
    obtained: when it does not hold the worker, no remote delete is issued,
    the local row is deleted and the call returns; when it holds the worker,
    the remote delete is issued and, if it succeeds, the local row is
    deleted and the call returns, while if it fails its error is raised and
    the store is left as it was. Deleting the local row removes the rows
    with its id and no other, and leaves table [accounts] alone. *)
Theorem deleteWorker_contract env workerName accountId w :
  accountId ∈ AccountRow.id <$> accounts (db w) →
  (∃ r, r ∈ workers (db w) ∧ WorkerRow.name r = workerName ∧
        WorkerRow.account_id r = accountId) →
  ∃ acc row,
    Sql.select_account accountId (db w) = Some acc ∧
    Sql.select_worker workerName accountId (db w) = Some row ∧
    acc ∈ accounts (db w) ∧ AccountRow.id acc = accountId ∧
    row ∈ workers (db w) ∧ WorkerRow.name row = workerName ∧
    WorkerRow.account_id row = accountId ∧
    let api := cloudflare env (mapAccountRow acc) in
    let remote := CloudflareAPI.deleteWorker api workerName in
    let d' := Sql.delete_worker (WorkerRow.id row) (db w) in
    (∀ e, CloudflareAPI.listWorkers api = Err e →
       deleteWorker env workerName accountId w
       = (Err e, mkWorld (db w) (calls w ++ [list_request acc]))) ∧
    (∀ listed, CloudflareAPI.listWorkers api = Ok listed →
       (workerName ∉ CfWorker.id <$> listed →
          deleteWorker env workerName accountId w
          = (Ok tt, mkWorld d' (calls w ++ [list_request acc]))) ∧
       (workerName ∈ CfWorker.id <$> listed → remote = Ok tt →
          deleteWorker env workerName accountId w
          = (Ok tt, mkWorld d' (calls w ++ [list_request acc;
                                           delete_request acc workerName]))) ∧
       (∀ e, workerName ∈ CfWorker.id <$> listed → remote = Err e →
          deleteWorker env workerName accountId w
          = (Err e, mkWorld (db w) (calls w ++ [list_request acc;
                                                delete_request acc workerName])))) ∧
    (row ∉ workers d') ∧
    accounts d' = accounts (db w) ∧
    (∀ r, r ∈ workers (db w) → WorkerRow.id r ≠ WorkerRow.id row →
          r ∈ workers d').
Proof.
  intros [acc Hacc]%select_account_is_Some [row Hrow]%select_worker_is_Some.
  exists acc, row.
  destruct (select_account_Some _ _ _ Hacc) as [Hacc_in Hacc_id].
  destruct (select_worker_Some _ _ _ _ Hrow) as (Hrow_in & Hrow_name & Hrow_acc).
  do 7 (split; [done|]). intros api remote d'. split_and!; try done.
  - intros e Hlist. by apply (deleteWorker_list_failed _ _ _ _ _ row).
  - intros listed Hlist.
    pose proof (deleteWorker_unfold _ _ _ _ _ _ _ Hacc Hrow Hlist) as Hrun.
    split_and!.
    + intros Hnot. by rewrite Hrun, find_cf_None.
    + intros [c Hc]%find_cf_is_Some Hremote. rewrite Hrun, Hc.
      fold api remote. rewrite Hremote. by rewrite <- app_assoc.
    + intros e [c Hc]%find_cf_is_Some Hremote. rewrite Hrun, Hc.
      fold api remote. rewrite Hremote. by rewrite <- app_assoc.
  - unfold d', Sql.delete_worker. simpl. rewrite list_elem_of_filter.
    by intros [? _].
  - intros r Hin Hne. unfold d', Sql.delete_worker. simpl.
    by rewrite list_elem_of_filter.
Qed.

Lemma deleteWorker_contract_witness :
  (deleteWorker (Sample.env (Sample.api [] "sub")) "beta" "A" Sample.world
   = (Ok tt,
      mkWorld (mkDb (accounts Sample.store)
                 [Sample.row "r1" "A" "alpha"; Sample.row "r2" "C" "gamma"])
              [mkCall "A" ReqListWorkers])) ∧
  (deleteWorker (Sample.env (Sample.api [Sample.cf "beta"] "sub")) "beta" "A"
     Sample.world
   = (Ok tt,
      mkWorld (mkDb (accounts Sample.store)
                 [Sample.row "r1" "A" "alpha"; Sample.row "r2" "C" "gamma"])
              [mkCall "A" ReqListWorkers; mkCall "A" (ReqDeleteWorker "beta")])).
Proof.
  assert ("A" ∈ AccountRow.id <$> accounts (db Sample.world)) as Haccount
    by (apply (bool_decide_unpack _); by vm_compute).
  assert (∃ r, r ∈ workers (db Sample.world) ∧ WorkerRow.name r = "beta" ∧
               WorkerRow.account_id r = "A") as Hlocal.
  { exists (Sample.row "r3" "A" "beta"). split; [|done].
    apply (bool_decide_unpack _). by vm_compute. }
  split.
  - destruct (deleteWorker_contract (Sample.env (Sample.api [] "sub"))
                "beta" "A" Sample.world Haccount Hlocal)
      as (acc & row & Hacc & Hrow & _ & _ & _ & _ & _ & _ & Hlisted & _).
    vm_compute in Hacc. injection Hacc as <-.
    vm_compute in Hrow. injection Hrow as <-.
    destruct (Hlisted [] eq_refl) as (Hskip & _).
    apply Hskip. apply (bool_decide_unpack _). by vm_compute.
  - destruct (deleteWorker_contract
                (Sample.env (Sample.api [Sample.cf "beta"] "sub"))
                "beta" "A" Sample.world Haccount Hlocal)
      as (acc & row & Hacc & Hrow & _ & _ & _ & _ & _ & _ & Hlisted & _).
    vm_compute in Hacc. injection Hacc as <-.
    vm_compute in Hrow. injection Hrow as <-.
    destruct (Hlisted [Sample.cf "beta"] eq_refl) as (_ & Hissue & _).
    apply Hissue; [|done]. apply (bool_decide_unpack _). by vm_compute.
Defined.

(** C8. When the account and the local row exist and the provider's list has
    no worker of that name, [updateWorkerScript] fails with the message "Worker
    ... not found in Cloudflare", which differs from the message of a local
    miss ("... not found in account ...") and from that of a missing account;
    the store is unchanged and no update request reaches the provider. *)
Theorem updateWorkerScript_provider_miss env workerName accountId script w
    acc row listed :
  Sql.select_account accountId (db w) = Some acc →
  Sql.select_worker workerName accountId (db w) = Some row →
  CloudflareAPI.listWorkers (cloudflare env (mapAccountRow acc)) = Ok listed →
  workerName ∉ CfWorker.id <$> listed →
  updateWorkerScript env workerName accountId script w
  = (Err (worker_not_in_cloudflare workerName),
     mkWorld (db w) (calls w ++ [list_request acc])) ∧
  worker_not_in_cloudflare workerName
    ≠ worker_not_in_account workerName accountId ∧
  worker_not_in_cloudflare workerName ≠ account_not_found accountId.
Proof.
  intros Hacc Hrow Hlist Hmiss.
  destruct (not_found_messages_distinct workerName accountId) as (? & ? & _).
  split; [|done].
  unfold updateWorkerScript, bind, query, await.
  rewrite Hacc, Hrow, Hlist. simpl. by rewrite find_cf_None.
Qed.

Lemma updateWorkerScript_provider_miss_witness :
  updateWorkerScript (Sample.env (Sample.api [Sample.cf "beta"] "sub"))
    "alpha" "A" "export default {}" Sample.world
  = (Err "Worker alpha not found in Cloudflare",
     mkWorld Sample.store [mkCall "A" ReqListWorkers]).
Proof.
  refine (proj1 (updateWorkerScript_provider_miss
            (Sample.env (Sample.api [Sample.cf "beta"] "sub"))
            "alpha" "A" "export default {}" Sample.world
            (Sample.account "A" None) (Sample.row "r1" "A" "alpha")
            [Sample.cf "beta"] eq_refl eq_refl eq_refl _)).
  apply (bool_decide_unpack _). by vm_compute.
Defined.

(** C9. On a returning [updateWorkerScript], one row of the store that has
    the requested name and account (the table having [id] as primary key) is
    replaced by the same row with [modified_on] and [last_synced] set to the
    current time, its script hash and every other field kept; every other
    row of table [workers] and the whole table [accounts] are unchanged, and
    the provider received the list request and the update request only: no
    account-wide sync is made. *)
Theorem updateWorkerScript_stamps_one_row env workerName accountId script w u w' :
  workers_pk (db w) →
  updateWorkerScript env workerName accountId script w = (Ok u, w') →
  ∃ acc row,
    Sql.select_account accountId (db w) = Some acc ∧
    Sql.select_worker workerName accountId (db w) = Some row ∧
    acc ∈ accounts (db w) ∧ AccountRow.id acc = accountId ∧
    row ∈ workers (db w) ∧ WorkerRow.name row = workerName ∧
    WorkerRow.account_id row = accountId ∧
    let now := CURRENT_TIMESTAMP env 0 in
    let stamped :=
      WorkerRow.mk (WorkerRow.id row) (WorkerRow.account_id row)
        (WorkerRow.name row) (WorkerRow.subdomain row) (WorkerRow.url row)
        (WorkerRow.script_hash row) (WorkerRow.created_on row) (Some now) now in
    workers (db w')
      = (λ r, if decide (r = row) then stamped else r) <$> workers (db w) ∧
    accounts (db w') = accounts (db w) ∧
    calls w' = calls w ++ [list_request acc;
                           update_request acc workerName script].
Proof.
  intros Hpk (acc & row & Hacc & Hrow & ->)%updateWorkerScript_Ok.
  exists acc, row.
  destruct (select_account_Some _ _ _ Hacc) as [Hacc_in Hacc_id].
  destruct (select_worker_Some _ _ _ _ Hrow) as (Hin & Hrow_name & Hrow_acc).
  do 7 (split; [done|]). simpl. split; [|done].
  apply list_fmap_ext. intros i r Hr.
  apply list_elem_of_lookup_2 in Hr.
  destruct (decide (WorkerRow.id r = WorkerRow.id row)) as [Hid|Hid].
  - rewrite (pk_row_by_id _ _ _ Hpk Hr Hin Hid). by rewrite decide_True.
  - rewrite decide_False; [done|]. by intros ->.
Qed.

Lemma updateWorkerScript_stamps_one_row_witness :
  let env := Sample.env (Sample.api [Sample.cf "beta"] "sub") in
  ∃ w', updateWorkerScript env "beta" "A" "export default {}" Sample.world
          = (Ok tt, w') ∧
        workers (db w')
        = [Sample.row "r1" "A" "alpha"; Sample.row "r2" "C" "gamma";
           WorkerRow.mk "r3" "A" "beta" (Some "old")
             (Some "https://beta.old.workers.dev") (Some "h0") None
             (Some "2024-06-01 12:00:00") "2024-06-01 12:00:00"].
Proof.
  intros env. eexists. split; [by vm_compute|].
  destruct (updateWorkerScript_stamps_one_row env "beta" "A"
              "export default {}" Sample.world tt _
              ltac:(apply (bool_decide_unpack _); by vm_compute) eq_refl)
    as (acc & row & _ & Hrow & _ & _ & _ & _ & _ & Hw & _).
  vm_compute in Hrow. injection Hrow as <-. exact Hw.
Defined.

(** ** The primary key of [workers] is an invariant of the service *)

Lemma delete_workers_of_account_pk accountId d :
  workers_pk d → workers_pk (Sql.delete_workers_of_account accountId d).
Proof.
  unfold workers_pk, Sql.delete_workers_of_account. simpl. intros Hnd.
  eapply sublist_NoDup; [exact Hnd|]. apply fmap_sublist, sublist_filter.
Qed.

Lemma delete_worker_pk id d :
  workers_pk d → workers_pk (Sql.delete_worker id d).
Proof.
  unfold workers_pk, Sql.delete_worker. simpl. intros Hnd.
  eapply sublist_NoDup; [exact Hnd|]. apply fmap_sublist, sublist_filter.
Qed.

Lemma touch_worker_pk now id d :
  workers_pk d → workers_pk (Sql.touch_worker now id d).
Proof.
  unfold workers_pk, Sql.touch_worker. simpl.
  rewrite <- list_fmap_compose.
  replace (WorkerRow.id <$> workers d)
    with ((WorkerRow.id ∘ (λ r, if decide (WorkerRow.id r = id)
                                then Sql.set_stamps now r else r))
            <$> workers d); [done|].
  apply list_fmap_ext. intros i r _. simpl. by case_decide.
Qed.

Lemma insert_worker_pk r d d' :
  Sql.insert_worker r d = Ok d' → workers_pk d → workers_pk d'.
Proof.
  unfold Sql.insert_worker, workers_pk. case_decide as Hin; [done|].
  intros [= <-] Hnd. simpl. rewrite fmap_app. simpl.
  apply NoDup_app. split_and!; [done| |apply NoDup_singleton].
  intros x Hx ->%list_elem_of_singleton. done.
Qed.

Lemma insert_loop_pk env accountId subdomain fetched i w outcome w' :
  insert_loop env accountId subdomain i fetched w = (outcome, w') →
  workers_pk (db w) → workers_pk (db w').
Proof.
  revert i w. induction fetched as [|c fetched IH]; intros i w; simpl.
  - unfold ret. by intros [= _ <-].
  - unfold bind, exec_checked.
    destruct (Sql.insert_worker _ _) as [d1|e] eqn:Hins.
    + intros Hrest Hpk. eapply IH; [exact Hrest|]. simpl.
      by eapply insert_worker_pk.
    + by intros [= _ <-].
Qed.

(** Whatever its outcome, a sync leaves a table that satisfies the primary
    key. *)
Lemma syncAccountWorkers_pk env accountId w outcome w' :
  syncAccountWorkers env accountId w = (outcome, w') →
  workers_pk (db w) → workers_pk (db w').
Proof.
  unfold syncAccountWorkers, bind, query.
  destruct (Sql.select_account _ _) as [acc|]; [|by intros [= _ <-]].
  unfold try_catch, await_all2, throw.
  destruct (CloudflareAPI.listWorkers _) as [fetched|],
    (CloudflareAPI.getSubdomain _) as [subdomain|];
    simpl; try by intros [= _ <-].
  case_decide.
  - intros [= _ <-] Hpk. by apply delete_workers_of_account_pk.
  - unfold transaction, ret.
    destruct (insert_loop _ _ _ _ _ _) as [[u|e] w2] eqn:Hloop.
    + intros [= _ <-] Hpk. simpl.
      apply (insert_loop_pk _ _ _ _ _ _ _ _ Hloop). simpl.
      by apply delete_workers_of_account_pk.
    + intros [= _ <-] Hpk. simpl. by apply delete_workers_of_account_pk.
Qed.

Lemma updateWorkerScript_pk env workerName accountId script w outcome w' :
  updateWorkerScript env workerName accountId script w = (outcome, w') →
  workers_pk (db w) → workers_pk (db w').
Proof.
  unfold updateWorkerScript, bind, query, await, throw.
  destruct (Sql.select_account _ _); [|by intros [= _ <-]].
  destruct (Sql.select_worker _ _ _); [|by intros [= _ <-]].
  destruct (CloudflareAPI.listWorkers _); simpl; [|by intros [= _ <-]].
  destruct (find_cf _ _); simpl; [|by intros [= _ <-]].
  destruct (CloudflareAPI.updateWorkerScript _ _ _ _); [|by intros [= _ <-]].
  unfold exec. intros [= _ <-] Hpk. simpl. by apply touch_worker_pk.
Qed.

Lemma deleteWorker_pk env workerName accountId w outcome w' :
  deleteWorker env workerName accountId w = (outcome, w') →
  workers_pk (db w) → workers_pk (db w').
Proof.
  unfold deleteWorker, bind, query, await, throw.
  destruct (Sql.select_account _ _); [|by intros [= _ <-]].
  destruct (Sql.select_worker _ _ _); [|by intros [= _ <-]].
  destruct (CloudflareAPI.listWorkers _); simpl; [|by intros [= _ <-]].
  destruct (find_cf _ _); simpl.
  - destruct (CloudflareAPI.deleteWorker _ _); [|by intros [= _ <-]].
    unfold exec. intros [= _ <-] Hpk. simpl. by apply delete_worker_pk.
  - unfold ret, exec. intros [= _ <-] Hpk. simpl. by apply delete_worker_pk.
Qed.

(** ** Further properties of [syncAccountWorkers] *)

(** The store a sync leaves, whatever its outcome: the store it found, or
    that store without the rows of the account, or, when it returns on a
    non-empty list, the latter with the new rows appended and the account
    row stamped. *)
Lemma sync_store_cases env accountId w :
  let w' := (syncAccountWorkers env accountId w).2 in
  db w' = db w ∨
  db w' = Sql.delete_workers_of_account accountId (db w) ∨
  ∃ fetched subdomain,
    db w' = Sql.update_account_sync subdomain
              (CURRENT_TIMESTAMP env (length fetched)) accountId
              (mkDb (accounts (db w))
                 (rows_not_of accountId (db w)
                    ++ new_rows env accountId subdomain 0 fetched)).
Proof.
  simpl. destruct (Sql.select_account accountId (db w)) as [acc|] eqn:Hacc.
  - destruct (CloudflareAPI.listWorkers (cloudflare env (mapAccountRow acc)))
      as [fetched|e1] eqn:Hlist;
    destruct (CloudflareAPI.getSubdomain (cloudflare env (mapAccountRow acc)))
      as [subdomain|e2] eqn:Hsub.
    + rewrite (sync_fetched _ _ _ _ _ _ Hacc Hlist Hsub). simpl.
      case_decide; [by right; left|].
      destruct (insert_loop _ _ _ _ _ _) as [[u|e] w2] eqn:Hloop; simpl.
      * apply insert_loop_Ok in Hloop. subst w2. right; right.
        by exists fetched, subdomain.
      * by right; left.
    + destruct (sync_fetch_failed env accountId w acc Hacc) as [e ->];
        [by rewrite Hlist, Hsub|by left].
    + destruct (sync_fetch_failed env accountId w acc Hacc) as [e ->];
        [by rewrite Hlist|by left].
    + destruct (sync_fetch_failed env accountId w acc Hacc) as [e ->];
        [by rewrite Hlist|by left].
  - rewrite sync_unknown_account by done. by left.
Qed.

Lemma rows_not_of_idemp accountId d :
  filter (λ r, WorkerRow.account_id r ≠ accountId) (rows_not_of accountId d)
  = rows_not_of accountId d.
Proof. unfold rows_not_of. apply list_filter_filter_l. auto. Qed.

Lemma rows_of_other_account accountId other (l : list WorkerRow.t) :
  other ≠ accountId →
  filter (λ r, WorkerRow.account_id r = other)
         (filter (λ r, WorkerRow.account_id r ≠ accountId) l)
  = filter (λ r, WorkerRow.account_id r = other) l.
Proof.
  intros Hne. rewrite list_filter_filter. apply list_filter_iff.
  intros r. split; [by intros [? _]|]. intros ->. done.
Qed.

Lemma rows_of_other_new_rows env accountId other subdomain i fetched :
  other ≠ accountId →
  filter (λ r, WorkerRow.account_id r = other)
         (new_rows env accountId subdomain i fetched) = [].
Proof.
  intros Hne. revert i. induction fetched as [|c fetched IH]; intros i; [done|].
  simpl. rewrite filter_cons. simpl. case_decide; [congruence|]. apply IH.
Qed.

(** What a returning sync leaves as the mirror of the account. *)
Lemma sync_Ok_rows_of env accountId w acc fetched subdomain n w' :
  Sql.select_account accountId (db w) = Some acc →
  CloudflareAPI.listWorkers (cloudflare env (mapAccountRow acc)) = Ok fetched →
  CloudflareAPI.getSubdomain (cloudflare env (mapAccountRow acc)) = Ok subdomain →
  syncAccountWorkers env accountId w = (Ok n, w') →
  rows_of accountId (db w') = new_rows env accountId subdomain 0 fetched.
Proof.
  intros Hacc Hlist Hsub Hrun.
  destruct (sync_Ok _ _ _ _ _ _ _ _ Hacc Hlist Hsub Hrun) as (_ & Hw & _ & _).
  unfold rows_of, rows_not_of. rewrite Hw, filter_app, rows_of_new_rows.
  rewrite <- (app_nil_l (new_rows _ _ _ _ _)) at 2. f_equal.
  apply (rows_of_delete accountId (db w)).
Qed.

(** X1. When one of the two provider calls of a sync fails, the sync throws
    "Failed to sync workers for account <id>: <cause>", the cause being the
    message of a failed call, and the store is exactly as before: the
    [DELETE] has not run. *)
Theorem sync_provider_failure_keeps_store env accountId w acc :
  Sql.select_account accountId (db w) = Some acc →
  is_ok (CloudflareAPI.listWorkers (cloudflare env (mapAccountRow acc)))
    && is_ok (CloudflareAPI.getSubdomain (cloudflare env (mapAccountRow acc)))
    = false →
  ∃ cause,
    (CloudflareAPI.listWorkers (cloudflare env (mapAccountRow acc)) = Err cause ∨
     CloudflareAPI.getSubdomain (cloudflare env (mapAccountRow acc)) = Err cause) ∧
    syncAccountWorkers env accountId w
    = (Err (sync_failed accountId cause),
       mkWorld (db w) (calls w ++ sync_requests acc)).
Proof.
  intros Hacc Hfail.
  unfold syncAccountWorkers, bind, query, try_catch, await_all2.
  rewrite Hacc. simpl.
  destruct (CloudflareAPI.listWorkers _) as [fetched|e1],
    (CloudflareAPI.getSubdomain _) as [subdomain|e2]; simpl in *; try done.
  - exists e2. by split; [right|].
  - exists e1. by split; [left|].
  - destruct (subdomain_rejects_first env).
    + exists e2. by split; [right|].
    + exists e1. by split; [left|].
Qed.

Lemma sync_provider_failure_keeps_store_witness :
  let api := CloudflareAPI.mk (Err "429 Too Many Requests") (Ok "sub")
               (λ _, Ok "") (λ _ _ _, Ok tt) (λ _, Ok tt) in
  syncAccountWorkers (Sample.env api) "A" Sample.world
  = (Err "Failed to sync workers for account A: 429 Too Many Requests",
     mkWorld Sample.store [mkCall "A" ReqListWorkers; mkCall "A" ReqGetSubdomain]).
Proof.
  intros api.
  destruct (sync_provider_failure_keeps_store (Sample.env api) "A" Sample.world
              (Sample.account "A" None) eq_refl eq_refl) as (cause & Hcause & Hrun).
  destruct Hcause as [Hcause|Hcause]; [|discriminate Hcause].
  injection Hcause as <-. exact Hrun.
Defined.

Lemma sync_rows_of_other env accountId w other :
  other ≠ accountId →
  rows_of other (db (syncAccountWorkers env accountId w).2)
  = rows_of other (db w).
Proof.
  intros Hne. unfold rows_of.
  destruct (sync_store_cases env accountId w)
    as [-> | [-> | (fetched & subdomain & ->)]]; [done|..]; simpl.
  - by apply rows_of_other_account.
  - unfold rows_not_of. rewrite filter_app, rows_of_other_new_rows by done.
    rewrite app_nil_r. by apply rows_of_other_account.
Qed.

Lemma select_account_update_other subdomain now accountId other d :
  other ≠ accountId →
  Sql.select_account other (Sql.update_account_sync subdomain now accountId d)
  = Sql.select_account other d.
Proof.
  intros Hne. unfold Sql.select_account, Sql.update_account_sync. simpl.
  induction (accounts d) as [|r l IH]; [done|]. simpl.
  case_decide as Hid; simpl.
  - rewrite !bool_decide_eq_false_2 by congruence. done.
  - destruct (bool_decide (AccountRow.id r = other)); [done|apply IH].
Qed.

Lemma sync_select_account_other env accountId w other :
  other ≠ accountId →
  Sql.select_account other (db (syncAccountWorkers env accountId w).2)
  = Sql.select_account other (db w).
Proof.
  intros Hne.
  destruct (sync_store_cases env accountId w)
    as [-> | [-> | (fetched & subdomain & ->)]]; [done..|].
  by rewrite select_account_update_other.
Qed.

(** X2. Whatever its outcome, a sync leaves the worker rows of every other
    account as they were, in the same order, and the row of every other
    account in table [accounts] is found as before. *)
Theorem sync_keeps_other_accounts env accountId w other :
  other ≠ accountId →
  rows_of other (db (syncAccountWorkers env accountId w).2)
    = rows_of other (db w) ∧
  Sql.select_account other (db (syncAccountWorkers env accountId w).2)
    = Sql.select_account other (db w).
Proof.
  intros Hne. split; [by apply sync_rows_of_other|].
  by apply sync_select_account_other.
Qed.

Lemma sync_keeps_other_accounts_witness :
  rows_of "C"
    (db (syncAccountWorkers
           (Sample.env (Sample.api [Sample.cf "w1"; Sample.cf "w2"] "sub"))
           "A" Sample.world).2)
  = [Sample.row "r2" "C" "gamma"].
Proof.
  exact (proj1 (sync_keeps_other_accounts
           (Sample.env (Sample.api [Sample.cf "w1"; Sample.cf "w2"] "sub"))
           "A" Sample.world "C" ltac:(discriminate))).
Defined.

Lemma update_account_sync_frame subdomain now accountId accs :
  Forall2 (λ r r', same_but_sync_fields r r' ∧
                   (AccountRow.id r ≠ accountId → r' = r))
    accs
    ((λ r, if decide (AccountRow.id r = accountId)
           then Sql.set_sync_fields subdomain now r else r) <$> accs).
Proof.
  induction accs as [|r accs IH]; simpl; constructor; [|done].
  case_decide; (split; [by repeat split|done]).
Qed.

(** X3. Whatever its outcome, a sync keeps the accounts table row for row:
    the rows of the other accounts are unchanged, and in the row of the
    synced account no column other than [subdomain] and [last_check] is
    written (credentials, status and [last_error] are kept). *)
Theorem sync_writes_only_sync_fields env accountId w :
  Forall2 (λ r r', same_but_sync_fields r r' ∧
                   (AccountRow.id r ≠ accountId → r' = r))
    (accounts (db w))
    (accounts (db (syncAccountWorkers env accountId w).2)).
Proof.
  assert (Forall2 (λ r r', same_but_sync_fields r r' ∧
                           (AccountRow.id r ≠ accountId → r' = r))
            (accounts (db w)) (accounts (db w))) as Hrefl.
  { induction (accounts (db w)); constructor; [|done]. by repeat split. }
  destruct (sync_store_cases env accountId w)
    as [-> | [-> | (fetched & subdomain & ->)]]; [done..|].
  simpl. apply update_account_sync_frame.
Qed.

Lemma new_rows_synced env accountId subdomain i fetched :
  Forall (synced_row accountId subdomain)
         (new_rows env accountId subdomain i fetched).
Proof.
  revert i. induction fetched as [|c fetched IH]; intros i; simpl;
    constructor; [|apply IH].
  unfold synced_row, new_row, or_null. simpl. split_and!; try done.
  - by destruct (CfWorker.etag c) as [[|]|].
  - by destruct (CfWorker.created_on c) as [[|]|].
  - by destruct (CfWorker.modified_on c) as [[|]|].
Qed.

(** X4. After a returning sync, every row of the account carries the fetched
    subdomain and the URL "https://<name>.<subdomain>.workers.dev", none of
    its hash and provider timestamps is the empty string (an empty value is
    stored as NULL), and the ids of the rows are the identifiers drawn
    during this call, in order: the id of a worker is not kept from one
    sync to the next. *)
Theorem sync_row_shape env accountId w acc fetched subdomain n w' :
  Sql.select_account accountId (db w) = Some acc →
  CloudflareAPI.listWorkers (cloudflare env (mapAccountRow acc)) = Ok fetched →
  CloudflareAPI.getSubdomain (cloudflare env (mapAccountRow acc)) = Ok subdomain →
  syncAccountWorkers env accountId w = (Ok n, w') →
  Forall (synced_row accountId subdomain) (rows_of accountId (db w')) ∧
  WorkerRow.id <$> rows_of accountId (db w')
    = randomUUID env <$> seq 0 (length fetched).
Proof.
  intros Hacc Hlist Hsub Hrun.
  rewrite (sync_Ok_rows_of _ _ _ _ _ _ _ _ Hacc Hlist Hsub Hrun).
  split; [apply new_rows_synced|by rewrite new_rows_ids].
Qed.

Lemma sync_row_shape_witness :
  let env := Sample.env
               (Sample.api [CfWorker.mk "w1" (Some "") None (Some "2024-01-03")]
                  "sub") in
  ∃ w', syncAccountWorkers env "A" Sample.world = (Ok 1, w') ∧
        Forall (synced_row "A" "sub") (rows_of "A" (db w')) ∧
        WorkerRow.script_hash <$> rows_of "A" (db w') = [None] ∧
        WorkerRow.id <$> rows_of "A" (db w') = ["uuid-0"].
Proof.
  intros env. eexists. split; [by vm_compute|].
  destruct (sync_row_shape env "A" Sample.world (Sample.account "A" None)
              [CfWorker.mk "w1" (Some "") None (Some "2024-01-03")] "sub" 1 _
              eq_refl eq_refl eq_refl eq_refl) as [Hshape Hids].
  split; [exact Hshape|]. split; [by vm_compute|exact Hids].
Defined.

(** ** A sync seen through the read operations *)

Lemma getWorkers_of_one_account accountId d :
  getWorkers (Some [accountId]) d ≡ₚ mapWorkerRow <$> rows_of accountId d.
Proof.
  rewrite getWorkers_filtered by done. unfold rows_of.
  erewrite list_filter_iff; [done|].
  intros r. by rewrite list_elem_of_singleton.
Qed.

Lemma names_sorted_within_account accountId (l : list WorkerRecord.t) :
  Forall (λ r, WorkerRecord.accountId r = accountId) l →
  StronglySorted by_accountId_then_name l →
  StronglySorted String.le (WorkerRecord.name <$> l).
Proof.
  intros Hacc Hsorted. induction Hsorted as [|r l Hsorted IH Hall]; simpl.
  - constructor.
  - apply Forall_cons in Hacc as [Hr Hl]. constructor; [by apply IH|].
    apply Forall_fmap. rewrite Forall_forall in *.
    intros r' Hr'. simpl. apply (Hall r' Hr'). rewrite Hr. symmetry. auto.
Qed.

(** X5. After a returning sync, listing the workers of the account with
    [getWorkers([accountId])] yields one record per fetched worker, and the
    names of the records are the names the provider reported, in ascending
    order. *)
Theorem sync_then_getWorkers_lists_provider_names env accountId w acc fetched
    subdomain n w' :
  Sql.select_account accountId (db w) = Some acc →
  CloudflareAPI.listWorkers (cloudflare env (mapAccountRow acc)) = Ok fetched →
  CloudflareAPI.getSubdomain (cloudflare env (mapAccountRow acc)) = Ok subdomain →
  syncAccountWorkers env accountId w = (Ok n, w') →
  length (getWorkers (Some [accountId]) (db w')) = n ∧
  WorkerRecord.name <$> getWorkers (Some [accountId]) (db w')
    = merge_sort String.le (CfWorker.id <$> fetched).
Proof.
  intros Hacc Hlist Hsub Hrun.
  pose proof (getWorkers_of_one_account accountId (db w')) as Hperm.
  rewrite (sync_Ok_rows_of _ _ _ _ _ _ _ _ Hacc Hlist Hsub Hrun) in Hperm.
  destruct (sync_Ok _ _ _ _ _ _ _ _ Hacc Hlist Hsub Hrun) as (-> & _).
  split.
  { by rewrite Hperm, length_fmap, new_rows_length. }
  apply (StronglySorted_unique String.le).
  - apply (names_sorted_within_account accountId); [|apply getWorkers_sorted].
    rewrite Hperm. apply Forall_fmap, Forall_forall. intros r Hr. simpl.
    by eapply new_rows_account.
  - apply StronglySorted_merge_sort; apply _.
  - rewrite merge_sort_Permutation, Hperm, <- list_fmap_compose.
    by rewrite <- (new_rows_names env accountId subdomain 0 fetched).
Qed.

Lemma sync_then_getWorkers_lists_provider_names_witness :
  let env := Sample.env (Sample.api [Sample.cf "zeta"; Sample.cf "eta"] "sub") in
  ∃ w', syncAccountWorkers env "A" Sample.world = (Ok 2, w') ∧
        WorkerRecord.name <$> getWorkers (Some ["A"]) (db w') = ["eta"; "zeta"].
Proof.
  intros env. eexists. split; [by vm_compute|].
  exact (proj2 (sync_then_getWorkers_lists_provider_names env "A" Sample.world
                  (Sample.account "A" None) [Sample.cf "zeta"; Sample.cf "eta"]
                  "sub" 2 _ eq_refl eq_refl eq_refl eq_refl)).
Defined.

(** X6. After a returning sync of a non-empty list, [getAccountInfo] of the
    synced account reports the fetched subdomain and the time of the update
    as [lastCheck], every other field as before; and whatever the outcome of
    a sync, [getAccountInfo] of any other account answers as before. *)
Theorem getAccountInfo_after_sync env accountId w acc fetched subdomain n w' :
  Sql.select_account accountId (db w) = Some acc →
  CloudflareAPI.listWorkers (cloudflare env (mapAccountRow acc)) = Ok fetched →
  CloudflareAPI.getSubdomain (cloudflare env (mapAccountRow acc)) = Ok subdomain →
  fetched ≠ [] →
  syncAccountWorkers env accountId w = (Ok n, w') →
  getAccountInfo accountId (db w')
    = Some (Account.mk (AccountRow.id acc) (AccountRow.name acc)
              (AccountRow.auth_type acc) (AccountRow.account_id acc)
              (AccountRow.api_token acc) (AccountRow.auth_email acc)
              (AccountRow.auth_key acc) (Some subdomain)
              (AccountRow.status acc)
              (Some (CURRENT_TIMESTAMP env (length fetched)))
              (AccountRow.last_error acc) (AccountRow.created_at acc)
              (AccountRow.updated_at acc)) ∧
  ∀ other, other ≠ accountId →
    getAccountInfo other (db w') = getAccountInfo other (db w).
Proof.
  intros Hacc Hlist Hsub Hne Hrun. unfold getAccountInfo. split.
  - by rewrite (sync_nonempty_updates_account _ _ _ _ _ _ _ _
                  Hacc Hlist Hsub Hne Hrun).
  - intros other Hother.
    pose proof (sync_select_account_other env accountId w other Hother) as Hsel.
    rewrite Hrun in Hsel. simpl in Hsel. by rewrite Hsel.
Qed.

Lemma getAccountInfo_after_sync_witness :
  let env := Sample.env (Sample.api [Sample.cf "w1"] "sub") in
  let w' := (syncAccountWorkers env "A" Sample.world).2 in
  Account.subdomain <$> getAccountInfo "A" (db w') = Some (Some "sub") ∧
  Account.lastCheck <$> getAccountInfo "A" (db w')
    = Some (Some "2024-06-01 12:00:01") ∧
  getAccountInfo "C" (db w') = getAccountInfo "C" Sample.store.
Proof.
  intros env w'.
  destruct (getAccountInfo_after_sync env "A" Sample.world
              (Sample.account "A" None) [Sample.cf "w1"] "sub" 1 w'
              eq_refl eq_refl eq_refl ltac:(discriminate) ltac:(by vm_compute))
    as [Hinfo Hothers].
  rewrite Hinfo. split; [done|]. split; [done|].
  apply Hothers. discriminate.
Defined.

(** ** Failures of [updateWorkerScript] and [deleteWorker] *)

(** X7. A failing [updateWorkerScript] leaves the store exactly as it was,
    whatever failed: a lookup, the provider's list, the name missing from the
    list, or the provider's update. When the account or the local row is
    missing, it fails before any request is sent to the provider. *)
Theorem updateWorkerScript_failure_keeps_store env workerName accountId script
    w e w' :
  updateWorkerScript env workerName accountId script w = (Err e, w') →
  db w' = db w ∧
  (Sql.select_account accountId (db w) = None →
   e = account_not_found accountId ∧ calls w' = calls w) ∧
  (is_Some (Sql.select_account accountId (db w)) →
   Sql.select_worker workerName accountId (db w) = None →
   e = worker_not_in_account workerName accountId ∧ calls w' = calls w).
Proof.
  unfold updateWorkerScript, bind, query, await, throw.
  destruct (Sql.select_account _ _) as [acc|];
    [|intros [= <- <-]; split_and!; [done|done|by intros []]].
  destruct (Sql.select_worker _ _ _) as [row|];
    [|intros [= <- <-]; split_and!; done].
  intros Hrun.
  assert (db w' = db w) as Hdb.
  { destruct (CloudflareAPI.listWorkers _); simpl in Hrun;
      [|by injection Hrun as _ <-].
    destruct (find_cf _ _); simpl in Hrun; [|by injection Hrun as _ <-].
    destruct (CloudflareAPI.updateWorkerScript _ _ _ _); [done|].
    by injection Hrun as _ <-. }
  split_and!; done.
Qed.

Lemma updateWorkerScript_failure_keeps_store_witness :
  let api := CloudflareAPI.mk (Ok [Sample.cf "alpha"]) (Ok "sub") (λ _, Ok "")
               (λ _ _ _, Err "10021: script too large") (λ _, Ok tt) in
  ∃ w', updateWorkerScript (Sample.env api) "alpha" "A" "export default {}"
          Sample.world
        = (Err "10021: script too large", w') ∧
        db w' = Sample.store.
Proof.
  intros api. eexists. split; [by vm_compute|].
  exact (proj1 (updateWorkerScript_failure_keeps_store (Sample.env api) "alpha"
                  "A" "export default {}" Sample.world _ _ eq_refl)).
Defined.

(** X8. A failing [deleteWorker] leaves the store exactly as it was, whatever
    failed: a lookup, the provider's list or the remote delete. When the
    account or the local row is missing, it fails before any request is sent
    to the provider. *)
Theorem deleteWorker_failure_keeps_store env workerName accountId w e w' :
  deleteWorker env workerName accountId w = (Err e, w') →
  db w' = db w ∧
  (Sql.select_account accountId (db w) = None →
   e = account_not_found accountId ∧ calls w' = calls w) ∧
  (is_Some (Sql.select_account accountId (db w)) →
   Sql.select_worker workerName accountId (db w) = None →
   e = worker_not_in_database workerName ∧ calls w' = calls w).
Proof.
  unfold deleteWorker, bind, query, await, throw.
  destruct (Sql.select_account _ _) as [acc|];
    [|intros [= <- <-]; split_and!; [done|done|by intros []]].
  destruct (Sql.select_worker _ _ _) as [row|];
    [|intros [= <- <-]; split_and!; done].
  intros Hrun.
  assert (db w' = db w) as Hdb.
  { destruct (CloudflareAPI.listWorkers _); simpl in Hrun;
      [|by injection Hrun as _ <-].
    destruct (find_cf _ _); simpl in Hrun; [|done].
    destruct (CloudflareAPI.deleteWorker _ _); [done|].
    by injection Hrun as _ <-. }
  split_and!; done.
Qed.

Lemma deleteWorker_failure_keeps_store_witness :
  deleteWorker (Sample.env (Sample.api [] "sub")) "omega" "A" Sample.world
  = (Err "Worker omega not found in database", Sample.world).
Proof.
  destruct (deleteWorker (Sample.env (Sample.api [] "sub")) "omega" "A"
              Sample.world) as [outcome w'] eqn:Hrun.
  assert (outcome = Err "Worker omega not found in database") as ->
    by (vm_compute in Hrun; congruence).
  destruct (deleteWorker_failure_keeps_store _ _ _ _ _ _ Hrun)
    as (Hdb & _ & Hrow).
  destruct (Hrow ltac:(by eexists) eq_refl) as [_ Hcalls].
  destruct w' as [d' c']. simpl in *. by subst.
Defined.

(** ** [getWorkersByAccount] *)

Lemma filter_by_account_cons key (worker : WorkerRecord.t) workers :
  filter (λ r, WorkerRecord.accountId r = key) (worker :: workers)
  = if decide (WorkerRecord.accountId worker = key)
    then worker :: filter (λ r, WorkerRecord.accountId r = key) workers
    else filter (λ r, WorkerRecord.accountId r = key) workers.
Proof. by rewrite filter_cons. Qed.

(** The loop appends each record to the group of its account, creating the
    group at the first record, as long as no account id is an inherited
    property name. *)
Lemma group_loop_groups workers grouped :
  Forall (λ r, WorkerRecord.accountId r ∉ object_prototype_keys) workers →
  ∃ grouped',
    group_loop workers grouped = Ok grouped' ∧
    ∀ key,
      grouped' !! key =
        match grouped !! key,
              filter (λ r, WorkerRecord.accountId r = key) workers with
        | Some group, added => Some (group ++ added)
        | None, [] => None
        | None, added => Some added
        end.
Proof.
  revert grouped. induction workers as [|worker workers IH]; intros grouped.
  - intros _. exists grouped. split; [done|]. intros key.
    rewrite filter_nil. destruct (grouped !! key); [|done].
    by rewrite app_nil_r.
  - intros [Hkey Hrest]%Forall_cons. simpl.
    destruct (grouped !! WorkerRecord.accountId worker) as [group|] eqn:Hown.
    + destruct (IH (<[WorkerRecord.accountId worker := group ++ [worker]]> grouped)
                  Hrest) as (grouped' & -> & Hlook).
      exists grouped'. split; [done|]. intros key. rewrite Hlook.
      rewrite filter_by_account_cons.
      destruct (decide (WorkerRecord.accountId worker = key)) as [<-|Hne].
      * rewrite lookup_insert_eq, Hown. by rewrite <- app_assoc.
      * by rewrite lookup_insert_ne.
    + rewrite decide_False by done.
      destruct (IH (<[WorkerRecord.accountId worker := [worker]]> grouped) Hrest)
        as (grouped' & -> & Hlook).
      exists grouped'. split; [done|]. intros key. rewrite Hlook.
      rewrite filter_by_account_cons.
      destruct (decide (WorkerRecord.accountId worker = key)) as [<-|Hne].
      * by rewrite lookup_insert_eq, Hown.
      * by rewrite lookup_insert_ne.
Qed.

(** X9. When no account id of table [workers] is a property name inherited
    from [Object.prototype], [getWorkersByAccount] returns an object whose
    keys are the account ids that own at least one row, each mapped to the
    records of that account in the order in which [getWorkers()] lists them
    (ascending by name); an account without rows has no key. *)
Theorem getWorkersByAccount_groups d :
  Forall (λ r, WorkerRow.account_id r ∉ object_prototype_keys) (workers d) →
  ∃ grouped,
    getWorkersByAccount d = Ok grouped ∧
    ∀ key,
      grouped !! key =
        match filter (λ r, WorkerRecord.accountId r = key) (getWorkers None d) with
        | [] => None
        | group => Some group
        end.
Proof.
  intros Hkeys. unfold getWorkersByAccount.
  destruct (group_loop_groups (getWorkers None d) ∅) as (grouped & Hrun & Hlook).
  - rewrite getWorkers_unfiltered by auto.
    apply Forall_fmap. by apply (Forall_impl _ _ _ Hkeys).
  - exists grouped. split; [done|]. intros key.
    by rewrite Hlook, lookup_empty.
Qed.

Lemma getWorkersByAccount_groups_witness :
  ∃ grouped,
    getWorkersByAccount Sample.store = Ok grouped ∧
    grouped !! "A" = Some [mapWorkerRow (Sample.row "r1" "A" "alpha");
                           mapWorkerRow (Sample.row "r3" "A" "beta")] ∧
    grouped !! "B" = None.
Proof.
  destruct (getWorkersByAccount_groups Sample.store) as (grouped & Hrun & Hlook).
  { apply (bool_decide_unpack _). by vm_compute. }
  exists grouped. split; [exact Hrun|].
  split; rewrite Hlook; by vm_compute.
Defined.

(** ** Further properties of [syncMultipleAccounts] *)

Lemma record_outcomes_is_Some key results outcomes :
  is_Some (foldl record_outcome results outcomes !! key) →
  is_Some (results !! key) ∨ (key ∈ outcomes.*1 ∧ key ≠ "__proto__").
Proof.
  revert results. induction outcomes as [|[a r] os IH]; intros results; simpl.
  - by left.
  - intros [Hold|[Hin Hne]]%IH.
    + unfold record_outcome, js_assign in Hold. simpl in Hold.
      case_decide; [by left|].
      destruct (decide (a = key)) as [->|Hne].
      * right. split; [left|done].
      * rewrite lookup_insert_ne in Hold by done. by left.
    + right. split; [by right|done].
Qed.

(** X10. [syncMultipleAccounts] never throws, and the keys of the object it
    returns are exactly the requested ids other than [__proto__]: no key is
    invented and no other requested id is dropped. *)
Theorem syncMultipleAccounts_keys envs accountIds w :
  ∃ results,
    (syncMultipleAccounts envs accountIds w).1 = Ok results ∧
    ∀ key, is_Some (results !! key)
           ↔ key ∈ accountIds ∧ key ≠ "__proto__".
Proof.
  unfold syncMultipleAccounts. rewrite sync_loop_sequential. simpl.
  eexists. split; [done|]. intros key. split.
  - intros [Hold|[Hin Hne]]%record_outcomes_is_Some.
    + rewrite lookup_empty in Hold. by destruct Hold.
    + by rewrite run_in_sequence_ids in Hin.
  - intros [Hin Hne].
    destruct (record_outcomes_lookup key ∅
                (run_in_sequence envs 0 accountIds w).1) as (o & _ & ->);
      [by rewrite run_in_sequence_ids|done|by eexists].
Qed.

Lemma run_in_sequence_unlisted envs other accountIds i w :
  other ∉ accountIds →
  rows_of other (db (run_in_sequence envs i accountIds w).2)
    = rows_of other (db w) ∧
  Sql.select_account other (db (run_in_sequence envs i accountIds w).2)
    = Sql.select_account other (db w).
Proof.
  revert i w. induction accountIds as [|a l IH]; intros i w; [done|].
  rewrite not_elem_of_cons. intros [Hne Hnot]. simpl.
  pose proof (sync_rows_of_other (envs i) a w other Hne) as Hrows.
  pose proof (sync_select_account_other (envs i) a w other Hne) as Hsel.
  destruct (syncAccountWorkers (envs i) a w) as [r w1]. simpl in *.
  destruct (IH (S i) w1 Hnot) as [IHrows IHsel].
  destruct (run_in_sequence envs (S i) l w1) as [os w2]. simpl in *.
  split; congruence.
Qed.

(** X11. [syncMultipleAccounts] does not touch an account that is not in the
    requested list: its worker rows are as before, in the same order, and
    its row of table [accounts] is found as before, whatever happened to the
    requested accounts. *)
Theorem syncMultipleAccounts_keeps_unlisted_accounts envs accountIds w other :
  other ∉ accountIds →
  rows_of other (db (syncMultipleAccounts envs accountIds w).2)
    = rows_of other (db w) ∧
  Sql.select_account other (db (syncMultipleAccounts envs accountIds w).2)
    = Sql.select_account other (db w).
Proof.
  intros Hnot. unfold syncMultipleAccounts. rewrite sync_loop_sequential.
  simpl. by apply run_in_sequence_unlisted.
Qed.

Lemma syncMultipleAccounts_keeps_unlisted_accounts_witness :
  rows_of "C"
    (db (syncMultipleAccounts
           (λ _, Sample.env (Sample.api [Sample.cf "w1"] "sub"))
           ["A"; "B"; "A"] Sample.world).2)
  = [Sample.row "r2" "C" "gamma"].
Proof.
  refine (proj1 (syncMultipleAccounts_keeps_unlisted_accounts
                   (λ _, Sample.env (Sample.api [Sample.cf "w1"] "sub"))
                   ["A"; "B"; "A"] Sample.world "C" _)).
  apply (bool_decide_unpack _). by vm_compute.
Defined.

Lemma run_in_sequence_app envs i l1 l2 w :
  run_in_sequence envs i (l1 ++ l2) w
  = ((run_in_sequence envs i l1 w).1
       ++ (run_in_sequence envs (i + length l1) l2
             (run_in_sequence envs i l1 w).2).1,
     (run_in_sequence envs (i + length l1) l2
        (run_in_sequence envs i l1 w).2).2).
Proof.
  revert i w. induction l1 as [|a l1 IH]; intros i w; simpl.
  - rewrite Nat.add_0_r. by destruct (run_in_sequence _ _ _ _).
  - destruct (syncAccountWorkers _ _ _) as [r w1]. rewrite IH.
    replace (S i + length l1) with (i + S (length l1)) by lia.
    by destruct (run_in_sequence envs (S i) l1 w1).
Qed.

(** X12. When an id is requested several times, the account is synced each
    time and the result reports the last of these syncs: the value under the
    id of the last request for it is the outcome of the sync made at that
    position, in the world left by the requests before it. *)
Theorem syncMultipleAccounts_reports_last_sync envs before accountId after w :
  accountId ∉ after → accountId ≠ "__proto__" →
  ∃ results,
    (syncMultipleAccounts envs (before ++ accountId :: after) w).1
      = Ok results ∧
    results !! accountId
      = Some (value_of
                (syncAccountWorkers (envs (length before)) accountId
                   (syncMultipleAccounts envs before w).2).1).
Proof.
  intros Hafter Hkey. unfold syncMultipleAccounts.
  rewrite !sync_loop_sequential. simpl. eexists. split; [done|].
  rewrite run_in_sequence_app. simpl.
  destruct (syncAccountWorkers _ _ _) as [r w1]. simpl.
  pose proof (run_in_sequence_ids envs (S (length before)) after w1) as Hids.
  destruct (run_in_sequence envs (S (length before)) after w1) as [os w2].
  simpl in *. rewrite foldl_app. simpl.
  rewrite record_outcomes_other by (by rewrite Hids).
  unfold record_outcome, js_assign. simpl.
  rewrite decide_False by done. apply lookup_insert_eq.
Qed.

Lemma syncMultipleAccounts_reports_last_sync_witness :
  let envs := λ i : nat,
    if decide (i = 0) then Sample.env (Sample.api [Sample.cf "w1"] "sub")
    else Sample.env (Sample.api [Sample.cf "w1"; Sample.cf "w2"] "sub") in
  ∃ results,
    (syncMultipleAccounts envs ["A"; "C"; "A"] Sample.world).1 = Ok results ∧
    results !! "A" = Some (Count 2).
Proof.
  intros envs.
  destruct (syncMultipleAccounts_reports_last_sync envs ["A"; "C"] "A" []
              Sample.world) as (results & Hrun & Hlook).
  { apply not_elem_of_nil. }
  { discriminate. }
  exists results. split; [exact Hrun|]. rewrite Hlook. by vm_compute.
Defined.

(** ** The HTTP handlers *)

Import WorkersRouter.

Lemma split_comma_free s : comma_free s → split_comma s = [s].
Proof.
  induction s as [|c s IH]; simpl; [done|].
  intros [-> Hs]. by rewrite IH.
Qed.

Lemma split_comma_app s t :
  comma_free s → split_comma (s +:+ "," +:+ t) = s :: split_comma t.
Proof.
  induction s as [|c s IH]; intros Hs.
  - done.
  - destruct Hs as [Hc Hs].
    change (String c s +:+ "," +:+ t) with (String c (s +:+ "," +:+ t)).
    simpl. by rewrite Hc, IH.
Qed.

(** Splitting at the commas undoes joining with commas, for pieces that
    contain none. *)
Lemma split_join_comma ids :
  ids ≠ [] → Forall comma_free ids → split_comma (join_comma ids) = ids.
Proof.
  induction ids as [|a ids IH]; [done|]. intros _ [Ha Hids]%Forall_cons.
  destruct ids as [|b ids]; simpl.
  - by apply split_comma_free.
  - rewrite split_comma_app by done. f_equal. by apply IH.
Qed.

(** X13. [GET /?accountIds=a,b,...]: for a non-empty list of account ids
    without comma whose comma-separated form is not the empty string, the
    handler answers 200 with exactly what [getWorkers] returns for that list;
    with [accountIds] empty or absent it answers with all rows. The store is
    not changed. *)
Theorem get_workers_comma_separated ids w :
  ids ≠ [] → Forall comma_free ids → join_comma ids ≠ "" →
  get_workers (Text (join_comma ids)) w
    = (Ok (mkResponse 200 (WorkersBody (getWorkers (Some ids) (db w)))), w) ∧
  get_workers (Text "") w
    = (Ok (mkResponse 200 (WorkersBody (getWorkers None (db w)))), w) ∧
  get_workers Absent w
    = (Ok (mkResponse 200 (WorkersBody (getWorkers None (db w)))), w).
Proof.
  intros Hne Hfree Hjoin. split_and!; [|done..].
  unfold get_workers, try_catch, bind, query, json, ret, accountIdArray, truthy.
  rewrite bool_decide_eq_false_2 by done. simpl.
  by rewrite split_join_comma.
Qed.

Lemma get_workers_comma_separated_witness :
  get_workers (Text "C,Z") Sample.world
  = (Ok (mkResponse 200
           (WorkersBody [mapWorkerRow (Sample.row "r2" "C" "gamma")])),
     Sample.world).
Proof.
  refine (eq_trans (proj1 (get_workers_comma_separated ["C"; "Z"] Sample.world
                             ltac:(discriminate) _ ltac:(discriminate))) _).
  - repeat constructor.
  - by vm_compute.
Defined.

(** [syncMultipleAccounts] never throws. *)
Lemma syncMultipleAccounts_returns envs accountIds w :
  ∃ results,
    syncMultipleAccounts envs accountIds w
    = (Ok results, (syncMultipleAccounts envs accountIds w).2).
Proof.
  unfold syncMultipleAccounts. rewrite sync_loop_sequential. by eexists.
Qed.

(** X14. [POST /sync] with two or more account ids always answers 200 with
    the result object of [syncMultipleAccounts], also when every account
    fails: failures are only visible as strings inside the body. *)
Theorem post_sync_many_answers_200 envs accountIds w :
  2 ≤ length accountIds →
  ∃ results,
    (syncMultipleAccounts envs accountIds w).1 = Ok results ∧
    post_sync envs (Texts accountIds) w
    = (Ok (mkResponse 200 (SyncedManyBody results)),
       (syncMultipleAccounts envs accountIds w).2).
Proof.
  intros Hlen.
  destruct (syncMultipleAccounts_returns envs accountIds w) as [results Hrun].
  exists results. split; [by rewrite Hrun|].
  unfold post_sync, try_catch, bind, json, ret. simpl.
  rewrite bool_decide_eq_false_2 by (destruct accountIds; simpl in *; lia).
  destruct accountIds as [|a [|b l]]; simpl in Hlen; [lia..|].
  by rewrite Hrun.
Qed.

Lemma post_sync_many_answers_200_witness :
  ∃ results,
    (post_sync (λ _, Sample.env (Sample.api [] "sub")) (Texts ["X"; "Y"])
       Sample.world).1
    = Ok (mkResponse 200 (SyncedManyBody results)) ∧
    results !! "X" = Some (Message "Error: Account X not found").
Proof.
  destruct (post_sync_many_answers_200 (λ _, Sample.env (Sample.api [] "sub"))
              ["X"; "Y"] Sample.world ltac:(simpl; lia))
    as (results & Hrun & Hpost).
  exists results. split; [by rewrite Hpost|].
  vm_compute in Hrun. injection Hrun as <-. by vm_compute.
Defined.

(** X15. [POST /sync] with exactly one account id passes the outcome of
    [syncAccountWorkers] on: 200 with the count when it returns, 500 with its
    message when it throws. In particular an unknown account alone gives 500
    "Account <id> not found" and leaves the world untouched, whereas the same
    id sent twice in one request gives 200. *)
Theorem post_sync_single_passes_outcome envs accountId w :
  post_sync envs (Texts [accountId]) w
    = (Ok (match (syncAccountWorkers (envs 0) accountId w).1 with
           | Ok count => mkResponse 200 (SyncedOneBody accountId count)
           | Err message => mkResponse 500 (ErrorBody message)
           end),
       (syncAccountWorkers (envs 0) accountId w).2) ∧
  (accountId ∉ AccountRow.id <$> accounts (db w) →
   post_sync envs (Texts [accountId]) w
     = (Ok (mkResponse 500 (ErrorBody (account_not_found accountId))), w) ∧
   ∃ response,
     (post_sync envs (Texts [accountId; accountId]) w).1 = Ok response ∧
     status response = 200).
Proof.
  assert (post_sync envs (Texts [accountId]) w
          = (Ok (match (syncAccountWorkers (envs 0) accountId w).1 with
                 | Ok count => mkResponse 200 (SyncedOneBody accountId count)
                 | Err message => mkResponse 500 (ErrorBody message)
                 end),
             (syncAccountWorkers (envs 0) accountId w).2)) as Hone.
  { unfold post_sync, try_catch, bind, json, json_error, ret. simpl.
    by destruct (syncAccountWorkers (envs 0) accountId w) as [[n|e] w1]. }
  split; [done|]. intros Habsent. split.
  - rewrite Hone, sync_unknown_account by (by apply select_account_None).
    done.
  - destruct (syncMultipleAccounts_returns envs [accountId; accountId] w)
      as [results Hrun].
    unfold post_sync, try_catch, bind, json, ret. simpl.
    rewrite Hrun. by eexists.
Qed.

Lemma post_sync_single_passes_outcome_witness :
  post_sync (λ _, Sample.env (Sample.api [] "sub")) (Texts ["X"]) Sample.world
  = (Ok (mkResponse 500 (ErrorBody "Account X not found")), Sample.world).
Proof.
  refine (proj1 (proj2 (post_sync_single_passes_outcome
                          (λ _, Sample.env (Sample.api [] "sub")) "X"
                          Sample.world) _)).
  apply (bool_decide_unpack _). by vm_compute.
Defined.

(** X16. The three [GET] handlers always answer and never change the store:
    whatever the query, the tables after the request are the tables before
    it, and a failure of the service is answered with status 500. *)
Theorem get_handlers_read_only env workerName field w :
  (∃ response, (get_workers field w).1 = Ok response) ∧
  (get_workers field w).2 = w ∧
  (∃ response, (get_grouped w).1 = Ok response) ∧
  (get_grouped w).2 = w ∧
  (∃ response, (get_script env workerName field w).1 = Ok response) ∧
  db (get_script env workerName field w).2 = db w.
Proof.
  split_and!.
  - by eexists.
  - done.
  - unfold get_grouped, try_catch, bind, call, json, json_error, ret. simpl.
    destruct (getWorkersByAccount (db w)); by eexists.
  - unfold get_grouped, try_catch, bind, call, json, json_error, ret. simpl.
    by destruct (getWorkersByAccount (db w)).
  - unfold get_script, try_catch, bind, json, json_error, ret.
    destruct (negb (truthy field) || negb (is_string field)); [by eexists|].
    destruct (getWorkerScript _ _ _ _) as [[s|e] w1]; by eexists.
  - unfold get_script, try_catch, bind, json, json_error, ret.
    destruct (negb (truthy field) || negb (is_string field)); [done|].
    unfold getWorkerScript, bind, query, await, throw.
    destruct (Sql.select_account _ _); [|done].
    by destruct (CloudflareAPI.downloadWorkerScript _ _).
Qed.

(** X17. [GET /:workerName/script]: without a non-empty string [accountId]
    the handler answers 400 and calls nothing; for an account that is not in
    the store it answers 500 "Account <id> not found" without any request
    to the provider; for a known account it sends one download request and
    answers 200 with the script, or 500 with the provider's message. *)
Theorem get_script_cases env workerName accountId w :
  (accountId = "" →
   get_script env workerName (Text accountId) w
   = (Ok (mkResponse 400 (ErrorBody accountId_required)), w)) ∧
  (accountId ≠ "" → Sql.select_account accountId (db w) = None →
   get_script env workerName (Text accountId) w
   = (Ok (mkResponse 500 (ErrorBody (account_not_found accountId))), w)) ∧
  (∀ acc, accountId ≠ "" → Sql.select_account accountId (db w) = Some acc →
   get_script env workerName (Text accountId) w
   = (Ok (match CloudflareAPI.downloadWorkerScript
                  (cloudflare env (mapAccountRow acc)) workerName with
          | Ok script => mkResponse 200 (ScriptBody script)
          | Err message => mkResponse 500 (ErrorBody message)
          end),
      mkWorld (db w)
        (calls w ++ [mkCall (AccountRow.id acc)
                       (ReqDownloadWorkerScript workerName)]))).
Proof.
  split_and!.
  - by intros ->.
  - intros Hne Hacc.
    unfold get_script, try_catch, bind, json, json_error, ret, truthy.
    rewrite bool_decide_eq_false_2 by done. simpl.
    unfold getWorkerScript, bind, query. simpl. by rewrite Hacc.
  - intros acc Hne Hacc.
    unfold get_script, try_catch, bind, json, json_error, ret, truthy.
    rewrite bool_decide_eq_false_2 by done. simpl.
    unfold getWorkerScript, bind, query, await. simpl. rewrite Hacc.
    by destruct (CloudflareAPI.downloadWorkerScript _ _).
Qed.

Lemma get_script_cases_witness :
  get_script (Sample.env (Sample.api [] "sub")) "alpha" (Text "A") Sample.world
  = (Ok (mkResponse 200 (ScriptBody "export default {}")),
     mkWorld Sample.store [mkCall "A" (ReqDownloadWorkerScript "alpha")]) ∧
  get_script (Sample.env (Sample.api [] "sub")) "alpha" (Text "X") Sample.world
  = (Ok (mkResponse 500 (ErrorBody "Account X not found")), Sample.world).
Proof.
  split.
  - exact (proj2 (proj2 (get_script_cases (Sample.env (Sample.api [] "sub"))
                           "alpha" "A" Sample.world))
             (Sample.account "A" None) ltac:(discriminate) eq_refl).
  - exact (proj1 (proj2 (get_script_cases (Sample.env (Sample.api [] "sub"))
                           "alpha" "X" Sample.world))
             ltac:(discriminate) eq_refl).
Defined.

(** ** Reads after a delete, and the filter of [getWorkers] as a set *)

Lemma deleteWorker_Ok env workerName accountId w u w' :
  deleteWorker env workerName accountId w = (Ok u, w') →
  ∃ row,
    Sql.select_worker workerName accountId (db w) = Some row ∧
    db w' = Sql.delete_worker (WorkerRow.id row) (db w).
Proof.
  unfold deleteWorker, bind, query, await, throw.
  destruct (Sql.select_account _ _) as [acc|]; [|done].
  destruct (Sql.select_worker _ _ _) as [row|]; [|done].
  destruct (CloudflareAPI.listWorkers _); simpl; [|done].
  destruct (find_cf _ _); simpl.
  - destruct (CloudflareAPI.deleteWorker _ _); [|done].
    intros [= _ <-]. by exists row.
  - intros [= _ <-]. by exists row.
Qed.

Lemma elem_of_getWorkers_all record d :
  record ∈ getWorkers None d ↔ ∃ r, r ∈ workers d ∧ record = mapWorkerRow r.
Proof.
  rewrite getWorkers_unfiltered by auto. rewrite list_elem_of_fmap.
  split; intros (r & H1 & H2); exists r; by split.
Qed.

(** X18. After a returning [deleteWorker], the unfiltered listing of
    [getWorkers] holds exactly the records it held before whose id is not
    the id of the deleted row: the deleted worker is gone from the listing
    and nothing else is. *)
Theorem deleteWorker_then_getWorkers env workerName accountId w u w' :
  deleteWorker env workerName accountId w = (Ok u, w') →
  ∃ row,
    Sql.select_worker workerName accountId (db w) = Some row ∧
    ∀ record,
      record ∈ getWorkers None (db w')
      ↔ record ∈ getWorkers None (db w) ∧
        WorkerRecord.id record ≠ WorkerRow.id row.
Proof.
  intros (row & Hrow & Hdb)%deleteWorker_Ok. exists row. split; [done|].
  intros record. rewrite !elem_of_getWorkers_all, Hdb.
  unfold Sql.delete_worker. simpl. split.
  - intros (r & [Hid Hin]%list_elem_of_filter & ->). split; [by exists r|done].
  - intros [(r & Hin & ->) Hid]. exists r. split; [|done].
    by apply list_elem_of_filter.
Qed.

Lemma deleteWorker_then_getWorkers_witness :
  let w' := (deleteWorker (Sample.env (Sample.api [Sample.cf "alpha"] "sub"))
               "alpha" "A" Sample.world).2 in
  (mapWorkerRow (Sample.row "r1" "A" "alpha") ∉ getWorkers None (db w')) ∧
  mapWorkerRow (Sample.row "r3" "A" "beta") ∈ getWorkers None (db w').
Proof.
  intros w'.
  destruct (deleteWorker_then_getWorkers
              (Sample.env (Sample.api [Sample.cf "alpha"] "sub"))
              "alpha" "A" Sample.world tt w' ltac:(by vm_compute))
    as (row & Hrow & Hlist).
  vm_compute in Hrow. injection Hrow as <-. split.
  - intros [_ Hid]%Hlist. by apply Hid.
  - apply Hlist. split; [|discriminate].
    apply (bool_decide_unpack _). by vm_compute.
Defined.

(** X19. The filter of [getWorkers] acts as a set: two non-empty filter
    lists with the same elements, in whatever order and multiplicity, give
    the same records in the same order. *)
Theorem getWorkers_filter_is_a_set ids1 ids2 d :
  ids1 ≠ [] → ids2 ≠ [] → (∀ id, id ∈ ids1 ↔ id ∈ ids2) →
  getWorkers (Some ids1) d = getWorkers (Some ids2) d.
Proof.
  intros H1 H2 Hsame. unfold getWorkers.
  destruct ids1 as [|a1 l1]; [done|]. destruct ids2 as [|a2 l2]; [done|].
  f_equal. f_equal. apply list_filter_iff. intros r. apply Hsame.
Qed.

Lemma getWorkers_filter_is_a_set_witness :
  getWorkers (Some ["C"; "A"; "C"]) Sample.store
  = getWorkers (Some ["A"; "C"]) Sample.store.
Proof.
  apply (getWorkers_filter_is_a_set ["C"; "A"; "C"] ["A"; "C"] Sample.store);
    [discriminate..|].
  intros id. rewrite !elem_of_cons, !elem_of_nil. tauto.
Defined.
